(** * SEO Performance Analyzer: a shallow embedding of [streamlit_app.py]

    The development follows the source file function by function:
    [fetch_html_content] and [parse_html] (both with their [st.cache_data]
    wrappers), [check_query_presence], [process_data],
    [select_top_queries] and [main].

    Modelling conventions.
    - A Python [str] that the program lowercases or searches (queries,
      branded terms, page text) is the list of its Unicode code points;
      [str.lower] is CPython's algorithm over the Unicode tables, which are
      an interface. A [str] that is only passed around, compared or used as
      a key (URLs, markup, messages, dictionary keys) is a [string].
    - The dictionary returned by [parse_html] is read only through its six
      keys, so it is a record with one optional field per key: [None] is an
      absent key, [Some v] a present key.
    - Python exceptions are values of [exn]; code that can raise lives in the
      [result] monad.
    - A pandas DataFrame is the list of its rows in frame order; every row
      carries its index label.
    - The caches of [st.cache_data] are explicit state.
    - pandas, BeautifulSoup, the regular expression engine, the Unicode
      tables and the network are outside the repository: they are
      interfaces (type classes), and the theorems hold for every
      implementation of the interface. *)

From Stdlib Require Import Ascii.
From stdpp Require Import gmap strings list sorting.

#[local] Set Warnings "-clear-no-such-hyp".

Local Open Scope string_scope.
Local Open Scope Z_scope.
Local Open Scope list_scope.

(** ** Python strings *)

Module PyStr.

(** The code points of a literal written in ASCII. *)
Fixpoint text (s : string) : list N :=
  match s with
  | EmptyString => []
  | String c s' => N_of_ascii c :: text s'
  end.

(** What [str.lower] reads in the Unicode database:
    [_PyUnicode_ToLowerFull], [_PyUnicode_IsCased] and
    [_PyUnicode_IsCaseIgnorable], with the facts about them that the
    development uses: no code point lowers to nothing, and on ASCII the
    tables are the familiar ones. *)
Class UnicodeData : Type := {
  to_lower_full : N → list N;
  is_cased : N → bool;
  is_case_ignorable : N → bool;
  to_lower_full_nonempty c : to_lower_full c ≠ [];
  ascii_to_lower c :
    (c < 128)%N →
    to_lower_full c
    = [if ((65 <=? c) && (c <=? 90))%N then (c + 32)%N else c];
  ascii_cased c :
    (c < 128)%N →
    is_cased c
    = (((65 <=? c) && (c <=? 90)) || ((97 <=? c) && (c <=? 122)))%N;
  ascii_letter_not_ignorable c :
    (65 ≤ c ≤ 90 ∨ 97 ≤ c ≤ 122)%N → is_case_ignorable c = false
}.

Section Lower.
Context `{U : UnicodeData}.

Fixpoint skip_ignorable (s : list N) : list N :=
  match s with
  | [] => []
  | c :: s' => if is_case_ignorable c then skip_ignorable s' else s
  end.

(** [handle_capital_sigma]: a capital sigma is in final position when the
    nearest code point before it that is not case-ignorable is cased, and
    the nearest one after it, if any, is not. [before] lists the code points
    before the sigma, nearest first. *)
Definition final_sigma (before after : list N) : bool :=
  match skip_ignorable before with
  | c :: _ =>
      is_cased c &&
      match skip_ignorable after with
      | [] => true
      | d :: _ => negb (is_cased d)
      end
  | [] => false
  end.

(** [do_lower]: every code point is replaced by its full lowercase
    mapping, except U+03A3, which becomes U+03C2 in final position and
    U+03C3 elsewhere. *)
Fixpoint lower_from (before s : list N) : list N :=
  match s with
  | [] => []
  | c :: s' =>
      (if (c =? 931)%N
       then [if final_sigma before s' then 962%N else 963%N]
       else to_lower_full c)
      ++ lower_from (c :: before) s'
  end.

(** [s.lower()] *)
Definition lower (s : list N) : list N := lower_from [] s.

End Lower.

(** [s.startswith(q)] *)
Fixpoint startswith (q s : list N) : bool :=
  match q, s with
  | [], _ => true
  | _ :: _, [] => false
  | a :: q', b :: s' => bool_decide (a = b) && startswith q' s'
  end.

(** [q in s] for two strings: [q] occurs in [s] as a contiguous block. *)
Fixpoint contains (q s : list N) : bool :=
  startswith q s ||
  match s with
  | [] => false
  | _ :: s' => contains q s'
  end.

(** The declarative reading of [q in s]. *)
Definition substring_of (q s : list N) : Prop :=
  ∃ a b, s = a ++ q ++ b.

(** Two code points that are the same ASCII letter, up to case. *)
Definition is_upper (c : N) : Prop := (65 ≤ c ≤ 90)%N.

Definition lower_ascii (c : N) : N :=
  if ((65 <=? c) && (c <=? 90))%N then (c + 32)%N else c.

Definition case_variant (c d : N) : Prop :=
  c = d ∨ (is_upper c ∧ d = lower_ascii c) ∨ (is_upper d ∧ c = lower_ascii d).

(** Two strings that differ only in the case of ASCII letters: same
    length, and position by position the same code point or the same ASCII
    letter in the other case. *)
Definition differ_only_in_case : list N → list N → Prop :=
  Forall2 case_variant.

(** [d] is [c] lowercased on its own: the relation between the letters of
    two strings that differ only in letter case, whatever the alphabet. *)
Definition lowercase_of `{U : UnicodeData} (c d : N) : Prop :=
  c = d ∨ to_lower_full c = [d].

(** [sep.join(l)] *)
Fixpoint join (sep : list N) (l : list (list N)) : list N :=
  match l with
  | [] => []
  | [x] => x
  | x :: l' => x ++ sep ++ join sep l'
  end.

(** A table for ASCII and the Greek alphabet; every other code point is
    taken as uncased and unchanged. *)
Definition is_ascii_upper (c : N) : bool := ((65 <=? c) && (c <=? 90))%N.
Definition is_ascii_lower (c : N) : bool := ((97 <=? c) && (c <=? 122))%N.
Definition is_greek_upper (c : N) : bool :=
  ((913 <=? c) && (c <=? 937) && negb (c =? 930))%N.
Definition is_greek_lower (c : N) : bool := ((945 <=? c) && (c <=? 969))%N.

Definition basic_to_lower_full (c : N) : list N :=
  [if is_ascii_upper c || is_greek_upper c then (c + 32)%N else c].

Definition basic_is_cased (c : N) : bool :=
  is_ascii_upper c || is_ascii_lower c || is_greek_upper c
  || is_greek_lower c.

(** Apostrophe, full stop, colon, circumflex and grave accent. *)
Definition basic_is_case_ignorable (c : N) : bool :=
  bool_decide (c ∈ [39; 46; 58; 94; 96]%N).

End PyStr.

Import PyStr.

(** ** Exceptions *)

Inductive exn : Type :=
  | KeyError (key : string)
  | IndexError
  | ReError (pattern : list N).

Inductive result (A : Type) : Type :=
  | Ok (a : A)
  | Raise (e : exn).
Arguments Ok {A} a.
Arguments Raise {A} e.

Global Instance result_ret : MRet result := λ A a, Ok a.
Global Instance result_bind : MBind result := λ A B f m,
  match m with
  | Ok a => f a
  | Raise e => Raise e
  end.

(** ** Content Parser: [parse_html] *)

(** The dictionary built by [parse_html]. *)
Record ParsedHtml : Type := {
  title : option (list N);
  meta : option (list N);
  h1 : option (list (list N));
  h2 : option (list (list N));
  h3 : option (list (list N));
  body : option (list N)
}.

(** The literal [{}]. *)
Definition empty_dict : ParsedHtml :=
  {| title := None; meta := None; h1 := None; h2 := None; h3 := None;
     body := None |}.

(** [d.get(key, dflt)] *)
Definition get {A} (field : option A) (dflt : A) : A := default dflt field.

(** [d[key]] *)
Definition getitem {A} (key : string) (field : option A) : result A :=
  match field with
  | Some v => Ok v
  | None => Raise (KeyError key)
  end.

(** [l[i]] for a list and a non-negative index. *)
Definition subscript {A} (l : list A) (i : nat) : result A :=
  match l !! i with
  | Some x => Ok x
  | None => Raise IndexError
  end.

(** What [parse_html] asks of BeautifulSoup's [html.parser], as functions of
    the markup:
    - [find_text tag html]: [soup.find(tag)] and, when a tag is found, its
      [get_text()];
    - [find_meta_description html]: [soup.find('meta', attrs={'name':
      'description'})] and, when found, its [content] attribute if any;
    - [find_all_text tag html]: [[h.get_text() for h in soup.find_all(tag)]]. *)
Class BeautifulSoup : Type := {
  find_text : string → string → option (list N);
  find_meta_description : string → option (option (list N));
  find_all_text : string → string → list (list N)
}.

Section Parser.
Context `{BS : BeautifulSoup}.

(** The body of [parse_html]: what the function computes when it runs. *)
Definition parse_html_body (_html_content : string) : ParsedHtml :=
  if bool_decide (_html_content = "") then empty_dict
  else
    {| title := Some (default [] (find_text "title" _html_content));
       meta := Some (match find_meta_description _html_content with
                     | Some content => default [] content
                     | None => []
                     end);
       h1 := Some (find_all_text "h1" _html_content);
       h2 := Some (find_all_text "h2" _html_content);
       h3 := Some (find_all_text "h3" _html_content);
       body := Some (default [] (find_text "body" _html_content)) |}.

(** [parse_html] as the program calls it, under [@st.cache_data]. The
    cache key is made of the arguments whose parameter name does not start
    with an underscore; the only parameter is [_html_content], so the key
    is the same for every call and the cache has one slot: the body runs
    on the first call, and every later call gets the stored dictionary back,
    whatever its argument. The result is the dictionary returned and the
    cache afterwards. *)
Definition parse_html (cache : option ParsedHtml) (_html_content : string)
    : ParsedHtml * option ParsedHtml :=
  match cache with
  | Some stored => (stored, cache)
  | None =>
      let parsed := parse_html_body _html_content in (parsed, Some parsed)
  end.

End Parser.

(** The spec's all-empty ParsedContent: six fields, all present. *)
Definition all_empty_content : ParsedHtml :=
  {| title := Some []; meta := Some []; h1 := Some []; h2 := Some [];
     h3 := Some []; body := Some [] |}.

(** A parser for documents without markup: no element is ever found. *)
Definition no_markup : BeautifulSoup :=
  {| find_text := λ _ _, None;
     find_meta_description := λ _, None;
     find_all_text := λ _ _, [] |}.

(** A parser for documents that are a title and nothing else: the whole
    document is the text of its [title] element. *)
Definition title_only : BeautifulSoup :=
  {| find_text := λ tag html,
       if bool_decide (tag = "title") then Some (text html) else None;
     find_meta_description := λ _, None;
     find_all_text := λ _ _, [] |}.

(** ** Presence Matcher: [check_query_presence] *)

Record PresenceVector : Type := {
  Title : bool;
  Meta : bool;
  H1 : bool;
  H2_1 : bool;
  H2_2 : bool;
  H3_1 : bool;
  H3_2 : bool;
  Body : bool
}.

Section MatcherDef.
Context `{U : UnicodeData}.

(** [len(d.get(key, [])) > i and query in d[key][i].lower()]; the right
    operand of [and] is evaluated only when the left one is true. *)
Definition heading_at (key : string) (field : option (list (list N)))
    (i : nat) (query : list N) : result bool :=
  if bool_decide (i < length (get field []))%nat then
    l ← getitem key field;
    h ← subscript l i;
    mret (contains query (lower h))
  else mret false.

Definition check_query_presence (parsed_html : ParsedHtml) (query : list N)
    : result PresenceVector :=
  let query := lower query in
  let v_title := contains query (lower (get (title parsed_html) [])) in
  let v_meta := contains query (lower (get (meta parsed_html) [])) in
  let v_h1 :=
    existsb (λ h, contains query (lower h)) (get (h1 parsed_html) []) in
  v_h2_1 ← heading_at "h2" (h2 parsed_html) 0 query;
  v_h2_2 ← heading_at "h2" (h2 parsed_html) 1 query;
  v_h3_1 ← heading_at "h3" (h3 parsed_html) 0 query;
  v_h3_2 ← heading_at "h3" (h3 parsed_html) 1 query;
  let v_body := contains query (lower (get (body parsed_html) [])) in
  mret {| Title := v_title; Meta := v_meta; H1 := v_h1;
          H2_1 := v_h2_1; H2_2 := v_h2_2; H3_1 := v_h3_1; H3_2 := v_h3_2;
          Body := v_body |}.

(** What the spec asks of the field [b] computed for slot [i] of a heading
    list. *)
Definition slot_spec (headings : list (list N)) (i : nat) (query : list N)
    (b : bool) : Prop :=
  (b = true ↔
     ∃ h, headings !! i = Some h ∧ substring_of (lower query) (lower h)) ∧
  (headings !! i = None → b = false).

(** The test made on slot [i] of a heading list, as a total function. *)
Definition matches_at (l : list (list N)) (i : nat) (query : list N) : bool :=
  match l !! i with
  | Some h => contains query (lower h)
  | None => false
  end.

(** The vector [check_query_presence] computes (see
    [check_query_presence_returns]). *)
Definition presence_vector (parsed_html : ParsedHtml) (query : list N)
    : PresenceVector :=
  let query := lower query in
  {| Title := contains query (lower (get (title parsed_html) []));
     Meta := contains query (lower (get (meta parsed_html) []));
     H1 := existsb (λ h, contains query (lower h)) (get (h1 parsed_html) []);
     H2_1 := matches_at (get (h2 parsed_html) []) 0 query;
     H2_2 := matches_at (get (h2 parsed_html) []) 1 query;
     H3_1 := matches_at (get (h3 parsed_html) []) 0 query;
     H3_2 := matches_at (get (h3 parsed_html) []) 1 query;
     Body := contains query (lower (get (body parsed_html) [])) |}.

End MatcherDef.

(** ** Rows of the Search Console export *)

(** One row of the uploaded CSV: its index label in the frame and the four
    columns the program reads. *)
Record Row : Type := {
  label : nat;
  Query : list N;
  Clicks : Z;
  Impressions : Z;
  LandingPage : string
}.

Global Instance Row_eq_dec : EqDecision Row.
Proof. solve_decision. Defined.

Global Instance Row_inhabited : Inhabited Row :=
  populate {| label := 0; Query := []; Clicks := 0; Impressions := 0;
              LandingPage := "" |}.

Definition DataFrame : Type := list Row.

(** ** Branded-term filter: [process_data] *)

(** [Series.str.contains(pattern)] compiles the pattern as a regular
    expression and searches every value with it. [re_valid pattern] says
    whether [re.compile(pattern)] returns rather than raises [re.error];
    [re_search pattern text] whether the compiled pattern matches
    somewhere in [text]. *)
Class Regex : Type := {
  re_valid : list N → bool;
  re_search : list N → list N → bool
}.

Section ProcessData.
Context `{U : UnicodeData} `{RE : Regex}.

Definition process_data (df : DataFrame) (branded_terms : list (list N))
    : result DataFrame :=
  if bool_decide (df ≠ []) then
    match branded_terms with
    | _ :: _ =>
        let pattern := join (text "|") (lower <$> branded_terms) in
        if re_valid pattern
        then mret (filter (λ r, ¬ re_search pattern (lower (Query r))) df)
        else Raise (ReError pattern)
    | [] => mret df
    end
  else mret [].

End ProcessData.

(** An engine for alternations of literal text: the pattern is cut at
    every [|] and searched as plain text; a pattern with any other
    metacharacter is rejected. *)
Fixpoint alternatives (pattern : list N) : list (list N) :=
  match pattern with
  | [] => [[]]
  | c :: pattern' =>
      if (c =? 124)%N then [] :: alternatives pattern'
      else match alternatives pattern' with
           | a :: rest => (c :: a) :: rest
           | [] => [[c]]
           end
  end.

Definition is_metachar (c : N) : bool :=
  bool_decide (c ∈ text "\^$.?*+()[]{}").

Definition plain_search : Regex :=
  {| re_valid := forallb (λ c, negb (is_metachar c));
     re_search := λ pattern s,
       existsb (λ alternative, contains alternative s)
               (alternatives pattern) |}.

(** ** Query Selector: [select_top_queries] *)

(** Descending order on a column. *)
Definition desc (col : Row → Z) : relation Row := λ r1 r2, col r2 ≤ col r1.

Global Instance desc_dec col : RelDecision (desc col) :=
  λ r1 r2, decide (col r2 ≤ col r1).

(** [df.sort_values(col, ascending=False)] with the default [kind]
    ('quicksort'): pandas promises a reordering of the rows that is sorted on
    the column. Only [kind='mergesort'] and [kind='stable'] promise more. *)
Class Sorter : Type := {
  sort_values : (Row → Z) → DataFrame → DataFrame;
  sort_values_perm col df : sort_values col df ≡ₚ df;
  sort_values_sorted col df : Sorted (desc col) (sort_values col df)
}.

Section Selector.
Context `{S : Sorter}.

(** [group[group['Clicks'] > 0].sort_values('Clicks', ascending=False)] *)
Definition queries_with_clicks (group : DataFrame) : DataFrame :=
  sort_values Clicks (filter (λ r, 0 < Clicks r) group).

(** [queries_with_clicks.head(8)] *)
Definition top_by_clicks (group : DataFrame) : DataFrame :=
  take 8 (queries_with_clicks group).

Definition remaining_slots (group : DataFrame) : Z :=
  10 - Z.of_nat (length (top_by_clicks group)).

(** [group[~group['Query'].isin(top_by_clicks['Query'])]] *)
Definition remaining_queries (group : DataFrame) : DataFrame :=
  filter (λ r, Query r ∉ Query <$> top_by_clicks group) group.

(** [remaining_queries.sort_values('Impressions', ascending=False)
      .head(remaining_slots)] *)
Definition top_by_impressions (group : DataFrame) : DataFrame :=
  take (Z.to_nat (remaining_slots group))
       (sort_values Impressions (remaining_queries group)).

Definition select_top_queries (group : DataFrame) : DataFrame :=
  if bool_decide (0 < remaining_slots group) then
    top_by_clicks group ++ top_by_impressions group
  else top_by_clicks group.

End Selector.

(** [r1] comes before [r2] in the frame [df]. *)
Definition precedes (df : DataFrame) (r1 r2 : Row) : Prop :=
  ∃ i j : nat, (i < j)%nat ∧ df !! i = Some r1 ∧ df !! j = Some r2.

(** Rows of [output] that tie on the column keep the relative order they
    have in [input]. *)
Definition ties_keep_input_order (col : Row → Z) (input output : DataFrame)
    : Prop :=
  ∀ r1 r2, r1 ∈ output → r2 ∈ output → col r1 = col r2 →
    precedes input r1 r2 → precedes output r1 r2.

(** A sort by insertion from the right that meets the [Sorter] contract.
    [insert_desc true] puts a row before the first row that is not
    greater (ties stay in frame order); [insert_desc false] puts it before
    the first row that is smaller. *)
Fixpoint insert_desc (before_ties : bool) (col : Row → Z) (x : Row)
    (l : DataFrame) : DataFrame :=
  match l with
  | [] => [x]
  | y :: l' =>
      if (if before_ties then col y <=? col x else col y <? col x)
      then x :: y :: l'
      else y :: insert_desc before_ties col x l'
  end.

Definition insertion_sort (before_ties : bool) (col : Row → Z)
    (df : DataFrame) : DataFrame :=
  foldr (insert_desc before_ties col) [] df.

(** *** The sort pandas runs by default

    [sort_values] on one column calls [nargsort], which for a descending
    sort reverses the values, calls numpy's [argsort(kind='quicksort')] and
    reverses the resulting indexer. numpy's generic quicksort for an index
    array ([aquicksort_] in [npysort/quicksort.cpp]) is transcribed below:
    median-of-three partitioning while a partition has more than 16
    elements, insertion sort for the partitions left, an explicit stack of
    pending partitions. Pointers into the index array are positions;
    every loop runs on fuel that its bound by the array length makes
    sufficient. This is the portable code path; a numpy build that hands
    the call to a vectorised quicksort orders ties in its own way, which
    is not transcribed. *)

Module Numpy.

Definition SMALL_QUICKSORT : nat := 16.

(** [v[*p]] *)
Definition key (v : list Z) (tosort : list nat) (p : nat) : Z :=
  v !!! (tosort !!! p).

(** [INTP_SWAP] of the entries at [p] and [q]. *)
Definition INTP_SWAP (tosort : list nat) (p q : nat) : list nat :=
  <[p := tosort !!! q]> (<[q := tosort !!! p]> tosort).

(** [do { ++pi; } while (v[*pi] < vp);] *)
Fixpoint scan_up (fuel : nat) (v : list Z) (tosort : list nat) (vp : Z)
    (pi : nat) : nat :=
  match fuel with
  | O => pi
  | S fuel =>
      let pi := S pi in
      if key v tosort pi <? vp then scan_up fuel v tosort vp pi else pi
  end.

(** [do { --pj; } while (vp < v[*pj]);] *)
Fixpoint scan_down (fuel : nat) (v : list Z) (tosort : list nat) (vp : Z)
    (pj : nat) : nat :=
  match fuel with
  | O => pj
  | S fuel =>
      let pj := pred pj in
      if vp <? key v tosort pj then scan_down fuel v tosort vp pj else pj
  end.

(** The [for (;;)] loop of the partition step: scan from both ends, stop
    when the scans meet, swap otherwise. *)
Fixpoint partition (fuel : nat) (v : list Z) (vp : Z) (tosort : list nat)
    (pi pj : nat) : list nat * nat :=
  match fuel with
  | O => (tosort, pi)
  | S fuel =>
      let pi := scan_up (length tosort) v tosort vp pi in
      let pj := scan_down (length tosort) v tosort vp pj in
      if bool_decide (pj ≤ pi)%nat then (tosort, pi)
      else partition fuel v vp (INTP_SWAP tosort pi pj) pi pj
  end.

(** [while ((pr - pl) > SMALL_QUICKSORT)]: partition around the median of
    the first, middle and last element, push the larger part on the stack
    and go on with the smaller one. *)
Fixpoint partition_while (fuel : nat) (v : list Z) (tosort : list nat)
    (pl pr : nat) (cdepth : Z) (stack : list (nat * nat * Z))
    : list nat * nat * nat * Z * list (nat * nat * Z) :=
  match fuel with
  | O => (tosort, pl, pr, cdepth, stack)
  | S fuel =>
      if bool_decide (SMALL_QUICKSORT < pr - pl)%nat then
        let pm := (pl + (pr - pl) / 2)%nat in
        let tosort :=
          if key v tosort pm <? key v tosort pl
          then INTP_SWAP tosort pm pl else tosort in
        let tosort :=
          if key v tosort pr <? key v tosort pm
          then INTP_SWAP tosort pr pm else tosort in
        let tosort :=
          if key v tosort pm <? key v tosort pl
          then INTP_SWAP tosort pm pl else tosort in
        let vp := key v tosort pm in
        let tosort := INTP_SWAP tosort pm (pr - 1) in
        let '(tosort, pi) :=
          partition (length tosort) v vp tosort pl (pr - 1) in
        let tosort := INTP_SWAP tosort pi (pr - 1) in
        if bool_decide (pi - pl < pr - pi)%nat then
          partition_while fuel v tosort pl (pi - 1) (cdepth - 1)
            ((S pi, pr, cdepth - 1) :: stack)
        else
          partition_while fuel v tosort (S pi) pr (cdepth - 1)
            ((pl, (pi - 1)%nat, cdepth - 1) :: stack)
      else (tosort, pl, pr, cdepth, stack)
  end.

(** [while (pj > pl && vp < v[*pk]) { *pj-- = *pk--; }] *)
Fixpoint shift (fuel : nat) (v : list Z) (tosort : list nat) (pl : nat)
    (vp : Z) (pj : nat) : list nat * nat :=
  match fuel with
  | O => (tosort, pj)
  | S fuel =>
      if bool_decide (pl < pj)%nat && (vp <? key v tosort (pred pj))
      then shift fuel v (<[pj := tosort !!! pred pj]> tosort) pl vp (pred pj)
      else (tosort, pj)
  end.

(** The insertion sort of the positions [pl..pr]. *)
Fixpoint insertion (fuel : nat) (v : list Z) (tosort : list nat)
    (pl pr pi : nat) : list nat :=
  match fuel with
  | O => tosort
  | S fuel =>
      if bool_decide (pi ≤ pr)%nat then
        let vi := tosort !!! pi in
        let vp := v !!! vi in
        let '(tosort, pj) := shift (length tosort) v tosort pl vp pi in
        insertion fuel v (<[pj := vi]> tosort) pl pr (S pi)
      else tosort
  end.

(** The outer [while (1)]. When the depth limit is used up the C code
    sorts the partition with heapsort; that part is not transcribed, and
    [None] is returned instead. *)
Fixpoint aquicksort_loop (fuel : nat) (v : list Z) (tosort : list nat)
    (pl pr : nat) (cdepth : Z) (stack : list (nat * nat * Z))
    : option (list nat) :=
  match fuel with
  | O => None
  | S fuel =>
      if cdepth <? 0 then None
      else
        let '(tosort, pl, pr, cdepth, stack) :=
          partition_while (length tosort) v tosort pl pr cdepth stack in
        let tosort := insertion (length tosort) v tosort pl pr (S pl) in
        match stack with
        | [] => Some tosort
        | (pl, pr, cdepth) :: stack =>
            aquicksort_loop fuel v tosort pl pr cdepth stack
        end
  end.

(** [np.argsort(v, kind='quicksort')] on integer keys. *)
Definition argsort (v : list Z) : option (list nat) :=
  let num := length v in
  aquicksort_loop (S num) v (seq 0 num) 0 (num - 1)
    (2 * Z.log2 (Z.of_nat num)) [].

End Numpy.

(** [nargsort(items, kind='quicksort', ascending=False)] *)
Definition nargsort_descending (items : list Z) : option (list nat) :=
  let idx := seq 0 (length items) in
  let non_nans := reverse items in
  let non_nan_idx := reverse idx in
  indexer ← Numpy.argsort non_nans;
  Some (reverse ((λ p, non_nan_idx !!! p) <$> indexer)).

(** [df.take(indexer)] *)
Definition take_rows (df : DataFrame) (indexer : list nat) : DataFrame :=
  omap (λ i, df !! i) indexer.

(** The rows in the order of pandas' indexer. The result is checked: where
    the transcription does not return a sorted reordering of the frame
    (it always does on the frames used below), the insertion sort stands
    in, so that the function meets the [Sorter] contract by
    construction. *)
Definition pandas_sort_values (col : Row → Z) (df : DataFrame) : DataFrame :=
  match nargsort_descending (col <$> df) with
  | Some indexer =>
      let out := take_rows df indexer in
      if decide (out ≡ₚ df ∧ Sorted (desc col) out) then out
      else insertion_sort true col df
  | None => insertion_sort true col df
  end.

(** ** URL Fetcher: [fetch_html_content] under [st.cache_data(ttl=3600)] *)

(** What [requests.get] can do: answer with a status code and a body, or
    raise (timeout, DNS failure, refused connection). *)
Inductive http_outcome : Type :=
  | Response (status_code : Z) (text : string)
  | RequestException (message : string).

(** The network at a given time, for a URL and a timeout. *)
Definition Network : Type := Z → string → Z → http_outcome.

(** [response.raise_for_status()] raises for 4xx and 5xx. *)
Definition raise_for_status (status_code : Z) : bool :=
  bool_decide (400 ≤ status_code < 600).

(** The body of [fetch_html_content]: the value returned and the warnings
    shown. *)
Definition fetch_body (net : Network) (now : Z) (url : string) (timeout : Z)
    : option string * list string :=
  match net now url timeout with
  | Response status_code text =>
      if raise_for_status status_code
      then (None, ["Failed to fetch " +:+ url])
      else (Some text, [])
  | RequestException message =>
      (None, ["Failed to fetch " +:+ url +:+ ": " +:+ message])
  end.

Definition ttl : Z := 3600.

(** The function's cache keeps, per argument tuple, the returned value and
    the time it was stored. *)
Record Fetched : Type := {
  value : option string;
  cache_after : gmap (string * Z) (option string * Z);
  requests_sent : list string
}.

(** A call of the decorated function at time [now]: a live entry is
    returned as it is, otherwise the body runs and its return value is
    stored, whatever it is. *)
Definition fetch_html_content (net : Network) (now : Z) (url : string)
    (timeout : Z) (cache : gmap (string * Z) (option string * Z)) : Fetched :=
  let miss :=
    let v := (fetch_body net now url timeout).1 in
    {| value := v;
       cache_after := <[(url, timeout) := (v, now)]> cache;
       requests_sent := [url] |} in
  match cache !! (url, timeout) with
  | Some (v, stored) =>
      if bool_decide (now < stored + ttl)
      then {| value := v; cache_after := cache; requests_sent := [] |}
      else miss
  | None => miss
  end.

(** A network that refuses connections before time 100 and answers
    afterwards. *)
Definition flaky : Network := λ now url timeout,
  if now <? 100 then RequestException "connection refused"
  else Response 200 "<title>Trail shoes</title>".

(** ** Result Aggregator: the completion loop of [main] *)

Record AnalysisRecord : Type := {
  URL : string;
  out_Query : list N;
  out_Clicks : Z;
  out_Impressions : Z;
  presence : PresenceVector
}.

(** Python truth value of [html_content : Optional[str]]. *)
Definition truthy (html_content : option string) : bool :=
  match html_content with
  | Some s => bool_decide (s ≠ "")
  | None => false
  end.

Definition all_false (v : PresenceVector) : Prop :=
  v = {| Title := false; Meta := false; H1 := false; H2_1 := false;
         H2_2 := false; H3_1 := false; H3_2 := false; Body := false |}.

Section Pipeline.
Context `{U : UnicodeData} `{BS : BeautifulSoup} `{S : Sorter}.

(** [df[df['Landing Page'] == url]] *)
Definition url_group (df : DataFrame) (url : string) : DataFrame :=
  filter (λ r, LandingPage r = url) df.

(** The body of [if html_content:]: the records appended for one URL, and
    the cache of [parse_html] afterwards. *)
Definition analyse (df : DataFrame) (url html_content : string)
    (cache : option ParsedHtml)
    : result (list AnalysisRecord * option ParsedHtml) :=
  let '(parsed_html, cache) := parse_html cache html_content in
  let top_queries := select_top_queries (url_group df url) in
  records ←
    mapM (λ query_row,
            presence ← check_query_presence parsed_html (Query query_row);
            mret {| URL := url; out_Query := Query query_row;
                    out_Clicks := Clicks query_row;
                    out_Impressions := Impressions query_row;
                    presence := presence |})
         top_queries;
  mret (records, cache).

(** One iteration of [for future in as_completed(future_to_url)], on the
    local list [results], the session's [processed_urls] and the cache of
    [parse_html]. *)
Definition on_completed (df : DataFrame)
    (state : list AnalysisRecord * gset string * option ParsedHtml)
    (completed : string * option string)
    : result (list AnalysisRecord * gset string * option ParsedHtml) :=
  let '(results, processed_urls, cache) := state in
  let '(url, html_content) := completed in
  analysed ← (if truthy html_content
              then analyse df url (default "" html_content) cache
              else mret ([], cache));
  mret (results ++ analysed.1, processed_urls ∪ {[url]}, analysed.2).

(** The whole loop, over the futures in the order they complete. *)
Fixpoint main_loop (df : DataFrame)
    (state : list AnalysisRecord * gset string * option ParsedHtml)
    (completions : list (string * option string))
    : result (list AnalysisRecord * gset string * option ParsedHtml) :=
  match completions with
  | [] => mret state
  | c :: rest => state' ← on_completed df state c; main_loop df state' rest
  end.

(** The record the loop builds for one selected row; the records one
    completed future contributes and the cache it leaves; the records and
    the cache of a whole list of completions (see [main_loop_returns]). *)
Definition record_of (parsed_html : ParsedHtml) (url : string)
    (query_row : Row) : AnalysisRecord :=
  {| URL := url; out_Query := Query query_row;
     out_Clicks := Clicks query_row;
     out_Impressions := Impressions query_row;
     presence := presence_vector parsed_html (Query query_row) |}.

Definition records_for (df : DataFrame) (cache : option ParsedHtml)
    (completed : string * option string) : list AnalysisRecord :=
  if truthy completed.2 then
    record_of (parse_html cache (default "" completed.2)).1 completed.1
      <$> select_top_queries (url_group df completed.1)
  else [].

Definition cache_for (cache : option ParsedHtml)
    (completed : string * option string) : option ParsedHtml :=
  if truthy completed.2
  then (parse_html cache (default "" completed.2)).2
  else cache.

Fixpoint loop_records (df : DataFrame) (cache : option ParsedHtml)
    (completions : list (string * option string)) : list AnalysisRecord :=
  match completions with
  | [] => []
  | c :: rest =>
      records_for df cache c ++ loop_records df (cache_for cache c) rest
  end.

Definition loop_cache (cache : option ParsedHtml)
    (completions : list (string * option string)) : option ParsedHtml :=
  foldl cache_for cache completions.

(** The first non-empty body among the completed futures, and the
    dictionary [parse_html] hands out during the loop: the one its cache
    already holds or, on an empty cache, the parse of the first non-empty
    body to complete. *)
Fixpoint first_body (completions : list (string * option string))
    : option string :=
  match completions with
  | [] => None
  | c :: rest => if truthy c.2 then c.2 else first_body rest
  end.


(** [set(df['Landing Page'].unique()) - st.session_state.processed_urls] *)
Definition urls_to_process (df : DataFrame) (processed_urls : gset string)
    : gset string :=
  list_to_set (LandingPage <$> df) ∖ processed_urls.

End Pipeline.

(** ** The rest of [main]: one run of the script on the session state *)

(** [st.session_state]: the accumulated results ([None] until a run produces
    records) and the URLs already run through the loop. *)
Record Session : Type := {
  session_results : option (list AnalysisRecord);
  session_processed : gset string
}.

(** The state set up by the two [if ... not in st.session_state] blocks. *)
Definition initial_session : Session :=
  {| session_results := None; session_processed := ∅ |}.

(** [concurrent.futures.as_completed]: the futures come back in an order
    the program does not choose, each one once. *)
Class Executor : Type := {
  as_completed : gset string → list string;
  as_completed_perm X : as_completed X ≡ₚ elements X
}.

(** The futures completing in the order the set lists its elements. *)
Definition in_set_order : Executor :=
  {| as_completed := elements;
     as_completed_perm := λ X, reflexivity (elements X) |}.

Section Main.
Context `{U : UnicodeData} `{RE : Regex} `{BS : BeautifulSoup}
  `{S : Sorter} `{EX : Executor}.

(** [if results: ...]: the new records are put after the stored ones; an
    empty list of new records leaves the stored value alone. *)
Definition store_results (stored : option (list AnalysisRecord))
    (results : list AnalysisRecord) : option (list AnalysisRecord) :=
  match results with
  | [] => stored
  | _ :: _ =>
      match stored with
      | None => Some results
      | Some old => Some (old ++ results)
      end
  end.

(** The body of [if uploaded_file is not None:] up to the display part.
    [uploaded] is the frame read from the CSV, [fetched url] what
    [fetch_html_content(url)] returns in this run, [cache] the cache of
    [parse_html], which outlives the session. The result is the new session
    state, or [None] when the run stops at [st.error], and the cache
    afterwards. *)
Definition main (uploaded : DataFrame) (branded_terms : list (list N))
    (fetched : string → option string) (cache : option ParsedHtml)
    (session : Session) : result (option Session * option ParsedHtml) :=
  df ← process_data uploaded branded_terms;
  if bool_decide (df = []) then mret (None, cache)
  else
    let todo := urls_to_process df (session_processed session) in
    state ← main_loop df ([], session_processed session, cache)
               ((λ url, (url, fetched url)) <$> as_completed todo);
    mret (Some {| session_results :=
                    store_results (session_results session) state.1.1;
                  session_processed := state.1.2 |},
          state.2).

End Main.

(** The display part of [main]: nothing is shown while the stored results
    are [None]; otherwise the number of distinct URLs and the number of
    records are shown, and their quotient is computed. The quotient is a
    float and is left out; what is kept is whether the division is
    defined. *)
Inductive display : Type :=
  | NothingShown
  | Metrics (total_urls total_queries : nat)
  | ZeroDivisionError.

Definition show_results (session : Session) : display :=
  match session_results session with
  | None => NothingShown
  | Some results =>
      let total_urls := size (list_to_set (URL <$> results) : gset string) in
      if bool_decide (total_urls = 0%nat) then ZeroDivisionError
      else Metrics total_urls (length results)
  end.

(** A well-formed session, as every session reached from
    [initial_session] is: stored results are never an empty list, every
    stored record belongs to a processed URL, and no URL has more than 10
    records. *)
Definition session_ok (session : Session) : Prop :=
  session_results session ≠ Some [] ∧
  ∀ results, session_results session = Some results →
    (∀ r, r ∈ results → URL r ∈ session_processed session) ∧
    (∀ url, (length (filter (λ r, URL r = url) results) ≤ 10)%nat).

(** A parsed page without any text: every field absent or empty. *)
Definition no_content (parsed_html : ParsedHtml) : Prop :=
  get (title parsed_html) [] = [] ∧ get (meta parsed_html) [] = [] ∧
  get (h1 parsed_html) [] = [] ∧ get (h2 parsed_html) [] = [] ∧
  get (h3 parsed_html) [] = [] ∧ get (body parsed_html) [] = [].

(** Every field that is true in [v_long] is true in [v_short]. *)
Definition found_wherever (v_long v_short : PresenceVector) : Prop :=
  (Title v_long = true → Title v_short = true) ∧
  (Meta v_long = true → Meta v_short = true) ∧
  (H1 v_long = true → H1 v_short = true) ∧
  (H2_1 v_long = true → H2_1 v_short = true) ∧
  (H2_2 v_long = true → H2_2 v_short = true) ∧
  (H3_1 v_long = true → H3_1 v_short = true) ∧
  (H3_2 v_long = true → H3_2 v_short = true) ∧
  (Body v_long = true → Body v_short = true).

(** ** Sample inputs *)

Module Samples.

Definition shoes_page : ParsedHtml :=
  {| title := Some (text "Best Shoes"); meta := Some []; h1 := Some [];
     h2 := Some [text "Running Shoes"; text "Shoe Care"]; h3 := Some [];
     body := Some [] |}.

(** A page titled "σασ", and the words "ΣΑΣ" and "σασ". *)
Definition sigma_page : ParsedHtml :=
  {| title := Some [963; 945; 963]%N; meta := Some []; h1 := Some [];
     h2 := Some []; h3 := Some []; body := Some [] |}.
Definition SAS_capitals : list N := [931; 913; 931]%N.
Definition sas_small : list N := [963; 945; 963]%N.

Definition site_a : string := "https://a.example/".
Definition site_b : string := "https://b.example/".

(** Two rows of one page that tie on Clicks. *)
Definition tie_a : Row :=
  {| label := 0; Query := text "trail shoes"; Clicks := 5;
     Impressions := 90; LandingPage := site_a |}.
Definition tie_b : Row :=
  {| label := 1; Query := text "road shoes"; Clicks := 5;
     Impressions := 70; LandingPage := site_a |}.

(** Two rows of one page with the same Query text. *)
Definition dup_clicked : Row :=
  {| label := 0; Query := text "trail shoes"; Clicks := 5;
     Impressions := 10; LandingPage := site_a |}.
Definition dup_unclicked : Row :=
  {| label := 1; Query := text "trail shoes"; Clicks := 0;
     Impressions := 100; LandingPage := site_a |}.

(** A frame with one row per page. *)
Definition row_a : Row :=
  {| label := 0; Query := text "trail shoes"; Clicks := 5;
     Impressions := 90; LandingPage := site_a |}.
Definition row_b : Row :=
  {| label := 1; Query := text "plain"; Clicks := 2; Impressions := 30;
     LandingPage := site_b |}.

(** Three rows of one page, none of them clicked. *)
Definition unclicked_1 : Row :=
  {| label := 0; Query := text "boots"; Clicks := 0; Impressions := 12;
     LandingPage := site_a |}.
Definition unclicked_2 : Row :=
  {| label := 1; Query := text "sandals"; Clicks := 0; Impressions := 40;
     LandingPage := site_a |}.
Definition unclicked_3 : Row :=
  {| label := 2; Query := text "laces"; Clicks := 0; Impressions := 7;
     LandingPage := site_a |}.

(** Forty rows of one page: row [i] has the Query "query" followed by the
    two digits of [i], and 1, 2 or 3 clicks. *)
Definition forty_row (i : nat) : Row :=
  {| label := i;
     Query := text "query " ++ [N.of_nat (48 + i / 10); N.of_nat (48 + i mod 10)];
     Clicks := 1 + Z.of_nat ((i * 7 + i / 3) mod 3);
     Impressions := 100 + Z.of_nat i;
     LandingPage := site_a |}.
Definition forty_rows : DataFrame := forty_row <$> seq 0 40.

(** A network that answers 404 on one URL and 200 elsewhere. *)
Definition one_missing : Network := λ now url timeout,
  if bool_decide (url = site_a) then Response 404 "not found"
  else Response 200 "<h1>Road shoes</h1>".

(** A cache with one entry, stored at time 50. *)
Definition one_entry : gmap (string * Z) (option string * Z) :=
  {[ (site_a, 10) := (Some "<h1>Trail shoes</h1>", 50) ]}.

(** A run in which one page is fetched and the other is not, and the
    session it ends in. *)
Definition fetched_b_only : string → option string := λ url,
  if bool_decide (url = site_b) then Some "plain text" else None.

Definition record_b : AnalysisRecord :=
  {| URL := site_b; out_Query := text "plain"; out_Clicks := 2;
     out_Impressions := 30;
     presence := {| Title := false; Meta := false; H1 := false;
                    H2_1 := false; H2_2 := false; H3_1 := false;
                    H3_2 := false; Body := false |} |}.

Definition session_after_run : Session :=
  {| session_results := Some [record_b];
     session_processed := {[site_a; site_b]} |}.

End Samples.

(** * Properties *)

Import Samples.

(** ** Strings *)

Section StringFacts.

Lemma startswith_spec q s :
  startswith q s = true ↔ ∃ b, s = q ++ b.
Proof.
  revert s. induction q as [|a q IH]; intros s; simpl.
  - split; [intros _; by exists s | done].
  - destruct s as [|b s]; simpl.
    + split; [done | intros [? ?]; discriminate].
    + rewrite andb_true_iff, bool_decide_eq_true, IH. split.
      * intros [-> [t ->]]. by exists t.
      * intros [t Ht]. injection Ht as -> ->. eauto.
Qed.

Lemma contains_spec q s :
  contains q s = true ↔ substring_of q s.
Proof.
  unfold substring_of. induction s as [|c s IH]; simpl.
  - rewrite orb_false_r, startswith_spec. split.
    + intros [b Hb]. by exists [], b.
    + intros [a [b Hab]]. destruct a; simpl in Hab; [eauto | discriminate].
  - rewrite orb_true_iff, startswith_spec, IH. split.
    + intros [[b Hb] | [a [b Hab]]].
      * by exists [], b.
      * exists (c :: a), b. simpl. by rewrite Hab.
    + intros [a [b Hab]]. destruct a as [|c' a]; simpl in Hab.
      * left. eauto.
      * right. injection Hab as _ ->. eauto.
Qed.

Lemma contains_empty s : contains [] s = true.
Proof. by destruct s. Qed.

Lemma contains_in_empty q : q ≠ [] → contains q [] = false.
Proof. by destruct q. Qed.

Lemma substring_of_trans a b c :
  substring_of a b → substring_of b c → substring_of a c.
Proof.
  intros (u & w & ->) (x & y & ->). exists (x ++ u), (w ++ y).
  by rewrite <-!app_assoc.
Qed.

Lemma contains_shorter q1 q2 s :
  substring_of q1 q2 → contains q2 s = true → contains q1 s = true.
Proof. rewrite !contains_spec. apply substring_of_trans. Qed.

End StringFacts.

(** ** Lowercasing *)

Local Ltac N_cases :=
  repeat match goal with
         | |- context [(?a <=? ?b)%N] => destruct (N.leb_spec a b)
         | |- context [(?a =? ?b)%N] => destruct (N.eqb_spec a b)
         | H : context [(?a <=? ?b)%N] |- _ => destruct (N.leb_spec a b)
         end;
  simpl in *; try done; try lia.

Section LowerFacts.
Context `{U : UnicodeData}.

Lemma lower_nil : lower [] = [].
Proof. done. Qed.

Lemma lower_nonempty q : q ≠ [] → lower q ≠ [].
Proof.
  destruct q as [|c q]; [done |]. intros _. unfold lower. simpl.
  destruct (c =? 931)%N; [done |].
  pose proof (to_lower_full_nonempty c). by destruct (to_lower_full c).
Qed.

Lemma is_upper_lower_ascii c :
  is_upper c → (c < 128 ∧ lower_ascii c = c + 32 ∧ 97 ≤ c + 32 ≤ 122)%N.
Proof. unfold is_upper, lower_ascii. intros ?. N_cases. Qed.

Lemma case_variant_upper_of c :
  is_ascii_upper c = true → case_variant c (lower_ascii c).
Proof.
  intros Hc. right; left. split; [|done].
  unfold is_ascii_upper in Hc. unfold is_upper. N_cases.
Qed.

Lemma case_variant_lower_of d :
  is_ascii_upper d = true → case_variant (lower_ascii d) d.
Proof.
  intros Hd. right; right. split; [|done].
  unfold is_ascii_upper in Hd. unfold is_upper. N_cases.
Qed.

Lemma upper_to_lower c :
  is_upper c → to_lower_full c = to_lower_full (lower_ascii c).
Proof.
  intros Hc. destruct (is_upper_lower_ascii c Hc) as (Hlt & -> & Hlow).
  unfold is_upper in Hc.
  rewrite (ascii_to_lower c), (ascii_to_lower (c + 32)) by lia. N_cases.
Qed.

Lemma upper_cased c : is_upper c → is_cased c = is_cased (lower_ascii c).
Proof.
  intros Hc. destruct (is_upper_lower_ascii c Hc) as (Hlt & -> & Hlow).
  unfold is_upper in Hc.
  rewrite (ascii_cased c), (ascii_cased (c + 32)) by lia. N_cases.
Qed.

Lemma upper_ignorable c :
  is_upper c → is_case_ignorable c = is_case_ignorable (lower_ascii c).
Proof.
  intros Hc. destruct (is_upper_lower_ascii c Hc) as (Hlt & -> & Hlow).
  unfold is_upper in Hc.
  by rewrite !ascii_letter_not_ignorable by lia.
Qed.

Lemma upper_not_sigma c :
  is_upper c → (c =? 931)%N = false ∧ (lower_ascii c =? 931)%N = false.
Proof.
  intros Hc. destruct (is_upper_lower_ascii c Hc) as (Hlt & -> & Hlow).
  split; apply N.eqb_neq; lia.
Qed.

Lemma case_variant_tables c d :
  case_variant c d →
  (c =? 931)%N = (d =? 931)%N ∧ to_lower_full c = to_lower_full d ∧
  is_cased c = is_cased d ∧ is_case_ignorable c = is_case_ignorable d.
Proof.
  intros [-> | [[Hc ->] | [Hd ->]]]; [done | |].
  - destruct (upper_not_sigma c Hc) as [-> ->].
    auto using upper_to_lower, upper_cased, upper_ignorable.
  - destruct (upper_not_sigma d Hd) as [-> ->].
    by rewrite (upper_to_lower d), (upper_cased d), (upper_ignorable d).
Qed.

Lemma skip_ignorable_variant l1 l2 :
  Forall2 case_variant l1 l2 →
  Forall2 case_variant (skip_ignorable l1) (skip_ignorable l2).
Proof.
  induction 1 as [|c d l1 l2 Hcd Hl IH]; simpl; [done |].
  destruct (case_variant_tables c d Hcd) as (_ & _ & _ & <-).
  destruct (is_case_ignorable c); [done | by constructor].
Qed.

Lemma final_sigma_variant b1 b2 a1 a2 :
  Forall2 case_variant b1 b2 → Forall2 case_variant a1 a2 →
  final_sigma b1 a1 = final_sigma b2 a2.
Proof.
  intros Hb%skip_ignorable_variant Ha%skip_ignorable_variant.
  unfold final_sigma.
  destruct Hb as [|c d ? ? Hcd _]; [done |].
  destruct (case_variant_tables c d Hcd) as (_ & _ & <- & _).
  destruct Ha as [|c' d' ? ? Hcd' _]; [done |].
  by destruct (case_variant_tables c' d' Hcd') as (_ & _ & <- & _).
Qed.

Lemma lower_from_variant s1 s2 :
  Forall2 case_variant s1 s2 →
  ∀ b1 b2, Forall2 case_variant b1 b2 → lower_from b1 s1 = lower_from b2 s2.
Proof.
  induction 1 as [|c d s1 s2 Hcd Hs IH]; intros b1 b2 Hb; simpl; [done |].
  destruct (case_variant_tables c d Hcd) as (<- & <- & _ & _).
  rewrite (final_sigma_variant b1 b2 s1 s2) by done.
  f_equal. apply IH. by constructor.
Qed.

Lemma differ_only_in_case_lower s t :
  differ_only_in_case s t → lower s = lower t.
Proof. intros Hst. by apply lower_from_variant. Qed.

End LowerFacts.

(** The table for ASCII and Greek is an instance of the interface. *)
Lemma basic_to_lower_full_nonempty c : basic_to_lower_full c ≠ [].
Proof. done. Qed.

Lemma basic_ascii_to_lower c :
  (c < 128)%N →
  basic_to_lower_full c
  = [if ((65 <=? c) && (c <=? 90))%N then (c + 32)%N else c].
Proof.
  intros Hc. unfold basic_to_lower_full, is_ascii_upper, is_greek_upper.
  N_cases.
Qed.

Lemma basic_ascii_cased c :
  (c < 128)%N →
  basic_is_cased c
  = (((65 <=? c) && (c <=? 90)) || ((97 <=? c) && (c <=? 122)))%N.
Proof.
  intros Hc. unfold basic_is_cased, is_ascii_upper, is_ascii_lower,
    is_greek_upper, is_greek_lower.
  N_cases.
Qed.

Lemma basic_ascii_letter_not_ignorable c :
  (65 ≤ c ≤ 90 ∨ 97 ≤ c ≤ 122)%N → basic_is_case_ignorable c = false.
Proof.
  intros Hc. apply bool_decide_eq_false.
  rewrite !elem_of_cons, elem_of_nil. lia.
Qed.

Definition basic_unicode : UnicodeData :=
  {| to_lower_full := basic_to_lower_full;
     is_cased := basic_is_cased;
     is_case_ignorable := basic_is_case_ignorable;
     to_lower_full_nonempty := basic_to_lower_full_nonempty;
     ascii_to_lower := basic_ascii_to_lower;
     ascii_cased := basic_ascii_cased;
     ascii_letter_not_ignorable := basic_ascii_letter_not_ignorable |}.

Example lower_shoes :
  lower (U:=basic_unicode) (text "Best Shoes") = text "best shoes".
Proof. reflexivity. Qed.

(** "ΣΑΣ" lowers to "σας", with a final sigma. *)
Example lower_SAS :
  lower (U:=basic_unicode) SAS_capitals = [963; 945; 962]%N.
Proof. reflexivity. Qed.

(** ** Presence Matcher *)

Section Matcher.
Context `{U : UnicodeData}.

Lemma heading_at_returns key field i query :
  heading_at key field i query = Ok (matches_at (get field []) i query).
Proof.
  unfold heading_at, matches_at. case_bool_decide as Hlen.
  - destruct field as [l|]; simpl in *; [|lia].
    unfold subscript. destruct (l !! i) eqn:Hi; [done |].
    apply lookup_ge_None in Hi. lia.
  - destruct (get field [] !! i) eqn:Hi; [|done].
    apply lookup_lt_Some in Hi. lia.
Qed.

(** The matcher never raises: the guards on [len] keep every subscript in
    range and every key lookup on a present key. *)
Lemma check_query_presence_returns parsed_html query :
  check_query_presence parsed_html query
  = Ok (presence_vector parsed_html query).
Proof.
  unfold check_query_presence. by rewrite !heading_at_returns.
Qed.

Lemma matches_at_slot_spec l i query :
  slot_spec l i query (matches_at l i (lower query)).
Proof.
  unfold slot_spec, matches_at. destruct (l !! i) as [h|].
  - rewrite contains_spec. split; [|done]. split; [eauto |].
    intros [h' [Heq Hsub]]. by injection Heq as ->.
  - split; [|done]. split; [done | by intros [? [? ?]]].
Qed.

Lemma matches_at_empty_query l i :
  matches_at l i [] = true ↔ is_Some (l !! i).
Proof.
  unfold matches_at. destruct (l !! i) as [h|].
  - rewrite contains_empty. split; [eauto | done].
  - split; [done | by intros [? ?]].
Qed.

Lemma matches_at_shorter l i q1 q2 :
  substring_of q1 q2 → matches_at l i q2 = true → matches_at l i q1 = true.
Proof.
  unfold matches_at. destruct (l !! i); [apply contains_shorter | done].
Qed.

Lemma existsb_contains_empty (l : list (list N)) :
  existsb (λ h, contains [] (lower h)) l = true ↔ l ≠ [].
Proof.
  destruct l as [|h l]; simpl; [done |]. by rewrite contains_empty.
Qed.

(** C5. For every parsed page and query the matcher returns a vector whose
    [H1] field is true exactly when the lowercased query is a substring of
    some lowercased element of the H1 list, and whose [H2-1], [H2-2],
    [H3-1], [H3-2] fields are true exactly when the element at index 0 or 1
    of the H2 or H3 list exists and contains the lowercased query; with the
    index out of range the field is false. *)
Theorem presence_headings (parsed_html : ParsedHtml) (query : list N) :
  ∃ v, check_query_presence parsed_html query = Ok v ∧
    (H1 v = true ↔
       ∃ h, h ∈ get (h1 parsed_html) [] ∧
            substring_of (lower query) (lower h)) ∧
    slot_spec (get (h2 parsed_html) []) 0 query (H2_1 v) ∧
    slot_spec (get (h2 parsed_html) []) 1 query (H2_2 v) ∧
    slot_spec (get (h3 parsed_html) []) 0 query (H3_1 v) ∧
    slot_spec (get (h3 parsed_html) []) 1 query (H3_2 v).
Proof.
  exists (presence_vector parsed_html query).
  split; [apply check_query_presence_returns |].
  split; [|repeat split; apply matches_at_slot_spec].
  simpl. rewrite existsb_exists. setoid_rewrite contains_spec.
  by setoid_rewrite list_elem_of_In.
Qed.

(** C8, amended. Two queries whose lowercased forms are equal, and in
    particular two queries that differ only in the case of ASCII letters,
    give the same result on every parsed page. *)
Theorem presence_case_insensitive (parsed_html : ParsedHtml)
    (q1 q2 : list N) :
  differ_only_in_case q1 q2 ∨ lower q1 = lower q2 →
  check_query_presence parsed_html q1 = check_query_presence parsed_html q2.
Proof.
  intros Hcase. rewrite !check_query_presence_returns. f_equal.
  assert (lower q1 = lower q2) as Hlower
    by (destruct Hcase; [by apply differ_only_in_case_lower | done]).
  unfold presence_vector. by rewrite Hlower.
Qed.

(** C10. For the empty query the matcher returns a vector with [Title],
    [Meta] and [Body] true, [H1] true exactly when the H1 list is not
    empty, and each of [H2-1], [H2-2], [H3-1], [H3-2] true exactly when its
    index exists in the H2 or H3 list; the vector is never all false. *)
Theorem presence_empty_query (parsed_html : ParsedHtml) :
  ∃ v, check_query_presence parsed_html [] = Ok v ∧
    Title v = true ∧ Meta v = true ∧ Body v = true ∧
    (H1 v = true ↔ get (h1 parsed_html) [] ≠ []) ∧
    (H2_1 v = true ↔ is_Some (get (h2 parsed_html) [] !! 0%nat)) ∧
    (H2_2 v = true ↔ is_Some (get (h2 parsed_html) [] !! 1%nat)) ∧
    (H3_1 v = true ↔ is_Some (get (h3 parsed_html) [] !! 0%nat)) ∧
    (H3_2 v = true ↔ is_Some (get (h3 parsed_html) [] !! 1%nat)) ∧
    ¬ all_false v.
Proof.
  exists (presence_vector parsed_html []).
  split; [apply check_query_presence_returns |].
  unfold presence_vector, all_false. rewrite lower_nil.
  cbn [Title Meta Body H1 H2_1 H2_2 H3_1 H3_2].
  rewrite !contains_empty.
  split; [done |]. split; [done |]. split; [done |].
  split; [apply existsb_contains_empty |].
  do 4 (split; [apply matches_at_empty_query |]).
  discriminate.
Qed.

(** X5. On a parsed page without any text (every field absent or empty,
    the empty dictionary included) every non-empty query gets the all-false
    vector. *)
Theorem no_content_all_false (parsed_html : ParsedHtml) (query : list N) :
  no_content parsed_html → query ≠ [] →
  ∃ v, check_query_presence parsed_html query = Ok v ∧ all_false v.
Proof.
  intros (Ht & Hm & Hh1 & Hh2 & Hh3 & Hb) Hq%lower_nonempty.
  exists (presence_vector parsed_html query).
  split; [apply check_query_presence_returns |].
  unfold all_false, presence_vector.
  rewrite Ht, Hm, Hh1, Hh2, Hh3, Hb, lower_nil.
  by rewrite !contains_in_empty.
Qed.

(** X6. A query that is, after lowercasing, a substring of another query
    is found in every field in which the other query is found. *)
Theorem shorter_query_found_wherever (parsed_html : ParsedHtml)
    (q_short q_long : list N) :
  substring_of (lower q_short) (lower q_long) →
  ∃ v_short v_long,
    check_query_presence parsed_html q_short = Ok v_short ∧
    check_query_presence parsed_html q_long = Ok v_long ∧
    found_wherever v_long v_short.
Proof.
  intros Hsub. eexists _, _.
  split; [apply check_query_presence_returns |].
  split; [apply check_query_presence_returns |].
  unfold found_wherever, presence_vector. simpl.
  repeat split;
    try (by apply contains_shorter); try (by apply matches_at_shorter).
  rewrite !existsb_exists. intros (h & Hh & Hfound).
  exists h. split; [done |]. by eapply contains_shorter.
Qed.

End Matcher.

Section MatcherExamples.

Example shoes_example :
  check_query_presence (U:=basic_unicode) shoes_page (text "shoes")
  = Ok {| Title := true; Meta := false; H1 := false; H2_1 := true;
          H2_2 := false; H3_1 := false; H3_2 := false; Body := false |}.
Proof. reflexivity. Qed.

(** C8, as stated, fails. "ΣΑΣ" and "σασ" differ only in letter case: each
    letter of the second is the lowercase of the letter of the first. On a
    page titled "σασ" the second is found in the title and the first is
    not, because "ΣΑΣ" lowers to "σας", with a final sigma. *)
Lemma capital_sigma_query_differs :
  Forall2 (lowercase_of (U:=basic_unicode)) SAS_capitals sas_small ∧
  check_query_presence (U:=basic_unicode) sigma_page SAS_capitals
  = Ok {| Title := false; Meta := false; H1 := false; H2_1 := false;
          H2_2 := false; H3_1 := false; H3_2 := false; Body := false |} ∧
  check_query_presence (U:=basic_unicode) sigma_page sas_small
  = Ok {| Title := true; Meta := false; H1 := false; H2_1 := false;
          H2_2 := false; H3_1 := false; H3_2 := false; Body := false |}.
Proof.
  split; [|split; reflexivity].
  repeat constructor; by right.
Qed.

Lemma presence_case_insensitive_witness :
  (differ_only_in_case (text "Shoes") (text "shoes") ∨
   lower (U:=basic_unicode) (text "Shoes")
   = lower (U:=basic_unicode) (text "shoes")) ∧
  check_query_presence (U:=basic_unicode) shoes_page (text "Shoes")
  = check_query_presence (U:=basic_unicode) shoes_page (text "shoes").
Proof.
  assert (differ_only_in_case (text "Shoes") (text "shoes")) as Hcase.
  { constructor; [exact (case_variant_upper_of 83%N eq_refl) |].
    repeat (constructor; [left; reflexivity |]). constructor. }
  split; [left; exact Hcase |].
  exact (presence_case_insensitive (U:=basic_unicode) shoes_page
           (text "Shoes") (text "shoes") (or_introl Hcase)).
Defined.

Lemma no_content_all_false_witness :
  no_content empty_dict ∧ text "shoes" ≠ [] ∧
  ∃ v, check_query_presence (U:=basic_unicode) empty_dict (text "shoes")
       = Ok v ∧ all_false v.
Proof.
  assert (no_content empty_dict) as Hempty by (by repeat split).
  assert (text "shoes" ≠ []) as Hq by discriminate.
  split; [exact Hempty |]. split; [exact Hq |].
  exact (no_content_all_false (U:=basic_unicode) empty_dict (text "shoes")
           Hempty Hq).
Defined.

Lemma shorter_query_found_wherever_witness :
  substring_of (lower (U:=basic_unicode) (text "Shoe"))
               (lower (U:=basic_unicode) (text "Running SHOES")) ∧
  ∃ v_short v_long,
    check_query_presence (U:=basic_unicode) shoes_page (text "Shoe")
    = Ok v_short ∧
    check_query_presence (U:=basic_unicode) shoes_page (text "Running SHOES")
    = Ok v_long ∧
    found_wherever v_long v_short.
Proof.
  assert (substring_of (lower (U:=basic_unicode) (text "Shoe"))
                       (lower (U:=basic_unicode) (text "Running SHOES")))
    as Hsub by (exists (text "running "), (text "s"); reflexivity).
  split; [exact Hsub |].
  exact (shorter_query_found_wherever (U:=basic_unicode) shoes_page _ _ Hsub).
Defined.

End MatcherExamples.

(** ** Lists *)

Section ListFacts.
Context {A : Type} (P : A → Prop) `{!∀ x, Decision (P x)}.

Lemma filter_all l : Forall P l → filter P l = l.
Proof.
  induction 1 as [|x l Hx _ IH]; [done |].
  by rewrite filter_cons_True, IH.
Qed.

Lemma filter_submseteq_mono l k : l ⊆+ k → filter P l ⊆+ filter P k.
Proof.
  induction 1 as [|x l k _ IH|x y l|x l k _ IH|l1 l2 l3 _ IH1 _ IH2].
  - done.
  - rewrite !filter_cons. case_decide; [by constructor | done].
  - rewrite !filter_cons. repeat case_decide; try done.
    apply submseteq_swap.
  - rewrite filter_cons. case_decide; [by constructor | done].
  - by etrans.
Qed.

Lemma submseteq_into_filter l k : l ⊆+ k → Forall P l → l ⊆+ filter P k.
Proof.
  intros Hsub Hall. rewrite <-(filter_all l Hall).
  by apply filter_submseteq_mono.
Qed.

End ListFacts.

(** ** Content Parser *)

Section ParserFacts.

(** C7, as stated, fails: on the empty input, parsed on an empty cache,
    none of the six keys is present in the returned dictionary. *)
Lemma parse_html_empty_has_no_fields :
  let parsed := (parse_html (BS:=no_markup) None "").1 in
  parsed ≠ all_empty_content ∧
  title parsed = None ∧ meta parsed = None ∧ h1 parsed = None ∧
  h2 parsed = None ∧ h3 parsed = None ∧ body parsed = None.
Proof. by repeat split. Qed.

Context `{U : UnicodeData} `{BS : BeautifulSoup}.

(** C7, amended. When the parser runs on the empty input, that is, on
    its first call, it returns without raising the empty dictionary: none
    of the six fields is present. The matcher reads every absent field
    through its default, so it returns on the empty dictionary exactly
    what it returns on the all-empty content. *)
Theorem parse_html_empty :
  parse_html None "" = (empty_dict, Some empty_dict) ∧
  ∀ query,
    check_query_presence (parse_html None "").1 query
    = check_query_presence all_empty_content query.
Proof.
  split; [done |]. intros query. by rewrite !check_query_presence_returns.
Qed.


(** X8. When the parser runs on markup, empty or not, in which it finds
    no title, no description, no heading and no body, every non-empty query
    gets the all-false vector on the dictionary it returns. *)
Theorem page_without_elements_all_false (html_content : string)
    (query : list N) :
  find_text "title" html_content = None →
  find_meta_description html_content = None →
  find_all_text "h1" html_content = [] →
  find_all_text "h2" html_content = [] →
  find_all_text "h3" html_content = [] →
  find_text "body" html_content = None →
  query ≠ [] →
  ∃ v, check_query_presence (parse_html None html_content).1 query = Ok v ∧
       all_false v.
Proof.
  intros Ht Hm Hh1 Hh2 Hh3 Hb Hq%lower_nonempty.
  exists (presence_vector (parse_html None html_content).1 query).
  split; [apply check_query_presence_returns |].
  unfold all_false, presence_vector, parse_html, parse_html_body.
  case_bool_decide; cbn [fst title meta h1 h2 h3 body empty_dict];
    rewrite ?Ht, ?Hm, ?Hh1, ?Hh2, ?Hh3, ?Hb;
    cbn [get default from_option id]; rewrite ?lower_nil;
    by rewrite !contains_in_empty.
Qed.

End ParserFacts.

Lemma page_without_elements_all_false_witness :
  find_text (BeautifulSoup:=no_markup) "title" "plain text" = None ∧
  find_meta_description (BeautifulSoup:=no_markup) "plain text" = None ∧
  find_all_text (BeautifulSoup:=no_markup) "h1" "plain text" = [] ∧
  find_all_text (BeautifulSoup:=no_markup) "h2" "plain text" = [] ∧
  find_all_text (BeautifulSoup:=no_markup) "h3" "plain text" = [] ∧
  find_text (BeautifulSoup:=no_markup) "body" "plain text" = None ∧
  text "shoes" ≠ [] ∧
  ∃ v, check_query_presence (U:=basic_unicode)
         (parse_html (BS:=no_markup) None "plain text").1 (text "shoes")
       = Ok v ∧ all_false v.
Proof.
  assert (text "shoes" ≠ []) as Hq by discriminate.
  do 6 (split; [reflexivity |]). split; [exact Hq |].
  exact (page_without_elements_all_false (U:=basic_unicode) (BS:=no_markup)
           "plain text" (text "shoes")
           eq_refl eq_refl eq_refl eq_refl eq_refl eq_refl Hq).
Defined.

(** ** Branded-term filter *)

Section ProcessDataFacts.
Context `{U : UnicodeData} `{RE : Regex}.

Lemma lower_terms_case (terms terms' : list (list N)) :
  Forall2 differ_only_in_case terms terms' →
  lower <$> terms = lower <$> terms'.
Proof.
  induction 1 as [|t t' ts ts' Ht _ IH]; [done |]. rewrite !fmap_cons.
  by rewrite (differ_only_in_case_lower _ _ Ht), IH.
Qed.

(** C9. With an empty list of branded terms, [process_data] returns a
    non-empty frame unchanged: same rows, same order. *)
Theorem process_data_no_terms (df : DataFrame) :
  df ≠ [] → process_data df [] = Ok df.
Proof. intros Hne. unfold process_data. by rewrite bool_decide_eq_true_2. Qed.

(** X13. The filter only removes rows: the frame it returns is the input
    frame with some rows left out, the others in their original order. *)
Theorem process_data_sublist (df out : DataFrame)
    (branded_terms : list (list N)) :
  process_data df branded_terms = Ok out → out `sublist_of` df.
Proof.
  unfold process_data. case_bool_decide.
  - destruct branded_terms; [by intros [= <-] |].
    destruct (re_valid _); [|done]. intros [= <-]. apply sublist_filter.
  - intros [= <-]. apply sublist_nil_l.
Qed.

(** X14. The filter ignores letter case in the branded terms: two term
    lists that differ only in the case of ASCII letters, term by term,
    give the same result. *)
Theorem process_data_terms_case (df : DataFrame)
    (terms terms' : list (list N)) :
  Forall2 differ_only_in_case terms terms' →
  process_data df terms = process_data df terms'.
Proof.
  intros Hcase. unfold process_data.
  rewrite (lower_terms_case _ _ Hcase). by destruct Hcase.
Qed.

(** X15. Filtering the returned frame again with the same terms removes
    nothing more. *)
Theorem process_data_idempotent (df out : DataFrame)
    (branded_terms : list (list N)) :
  process_data df branded_terms = Ok out →
  process_data out branded_terms = Ok out.
Proof.
  destruct (decide (df = [])) as [-> | Hdf]; [by intros [= <-] |].
  unfold process_data. rewrite (bool_decide_eq_true_2 (df ≠ [])) by done.
  destruct branded_terms as [|t ts].
  - intros [= <-]. by rewrite bool_decide_eq_true_2.
  - destruct (re_valid _); [|done]. intros [= <-].
    case_bool_decide as Hkept; [|by rewrite Hkept].
    simpl. f_equal. apply filter_all, Forall_forall. intros r Hr.
    by apply list_elem_of_filter in Hr as [Hr _].
Qed.

End ProcessDataFacts.

Section ProcessDataWitnesses.

Example filter_plain :
  process_data (U:=basic_unicode) (RE:=plain_search) [row_a; row_b]
    [text "Plain"]
  = Ok [row_a].
Proof. reflexivity. Qed.

(** A term that is not a regular expression makes the filter raise. *)
Example filter_open_parenthesis :
  process_data (U:=basic_unicode) (RE:=plain_search) [row_a; row_b]
    [text "("]
  = Raise (ReError (text "(")).
Proof. reflexivity. Qed.

Lemma process_data_no_terms_witness :
  [row_a; row_b] ≠ [] ∧
  process_data (U:=basic_unicode) (RE:=plain_search) [row_a; row_b] []
  = Ok [row_a; row_b].
Proof.
  assert ([row_a; row_b] ≠ []) as Hne by discriminate.
  split; [exact Hne |].
  exact (process_data_no_terms (U:=basic_unicode) (RE:=plain_search)
           [row_a; row_b] Hne).
Defined.

Lemma process_data_sublist_witness :
  process_data (U:=basic_unicode) (RE:=plain_search) [row_a; row_b]
    [text "Plain"]
  = Ok [row_a] ∧
  [row_a] `sublist_of` [row_a; row_b].
Proof.
  split; [exact filter_plain |].
  exact (process_data_sublist (U:=basic_unicode) (RE:=plain_search)
           [row_a; row_b] [row_a] [text "Plain"] filter_plain).
Defined.

Lemma process_data_terms_case_witness :
  Forall2 differ_only_in_case [text "Plain"] [text "PLAIN"] ∧
  process_data (U:=basic_unicode) (RE:=plain_search) [row_a; row_b]
    [text "Plain"]
  = process_data (U:=basic_unicode) (RE:=plain_search) [row_a; row_b]
      [text "PLAIN"].
Proof.
  assert (Forall2 differ_only_in_case [text "Plain"] [text "PLAIN"])
    as Hcase.
  { constructor; [|constructor].
    constructor; [left; reflexivity |].
    constructor; [exact (case_variant_lower_of 76%N eq_refl) |].
    constructor; [exact (case_variant_lower_of 65%N eq_refl) |].
    constructor; [exact (case_variant_lower_of 73%N eq_refl) |].
    constructor; [exact (case_variant_lower_of 78%N eq_refl) |].
    constructor. }
  split; [exact Hcase |].
  exact (process_data_terms_case (U:=basic_unicode) (RE:=plain_search)
           _ _ _ Hcase).
Defined.

Lemma process_data_idempotent_witness :
  process_data (U:=basic_unicode) (RE:=plain_search) [row_a; row_b]
    [text "Plain"]
  = Ok [row_a] ∧
  process_data (U:=basic_unicode) (RE:=plain_search) [row_a]
    [text "Plain"]
  = Ok [row_a].
Proof.
  split; [exact filter_plain |].
  exact (process_data_idempotent (U:=basic_unicode) (RE:=plain_search)
           [row_a; row_b] [row_a] [text "Plain"] filter_plain).
Defined.

End ProcessDataWitnesses.

(** ** Implementations of the sorting contract *)

Section InsertionSort.
Variables (before_ties : bool) (col : Row → Z).

Lemma insert_desc_perm x l : insert_desc before_ties col x l ≡ₚ x :: l.
Proof.
  induction l as [|y l IH]; simpl; [done |].
  destruct (if before_ties then col y <=? col x else col y <? col x);
    [done |].
  rewrite IH. apply Permutation_swap.
Qed.

Lemma insert_desc_hd a x l :
  desc col a x → HdRel (desc col) a l →
  HdRel (desc col) a (insert_desc before_ties col x l).
Proof.
  intros Hax Hal. destruct l as [|y l]; simpl; [by constructor |].
  destruct (if before_ties then col y <=? col x else col y <? col x);
    constructor; [done |]. by inversion Hal.
Qed.

Lemma insert_desc_sorted x l :
  Sorted (desc col) l → Sorted (desc col) (insert_desc before_ties col x l).
Proof.
  induction 1 as [|y l Hl IH Hy]; simpl; [by repeat constructor |].
  destruct (if before_ties then col y <=? col x else col y <? col x) eqn:Hc.
  - repeat constructor; [done.. |]. unfold desc.
    destruct before_ties; lia.
  - constructor; [done |]. apply insert_desc_hd; [|done]. unfold desc.
    destruct before_ties; lia.
Qed.

Lemma insertion_sort_perm df : insertion_sort before_ties col df ≡ₚ df.
Proof.
  induction df as [|x df IH]; simpl; [done |].
  by rewrite insert_desc_perm, IH.
Qed.

Lemma insertion_sort_sorted df :
  Sorted (desc col) (insertion_sort before_ties col df).
Proof.
  induction df as [|x df IH]; simpl; [constructor |].
  by apply insert_desc_sorted.
Qed.

End InsertionSort.

(** A sort that keeps ties in frame order. *)
Definition stable_sorter : Sorter :=
  {| sort_values := insertion_sort true;
     sort_values_perm := insertion_sort_perm true;
     sort_values_sorted := insertion_sort_sorted true |}.

Lemma pandas_sort_values_perm col df : pandas_sort_values col df ≡ₚ df.
Proof.
  unfold pandas_sort_values.
  destruct (nargsort_descending _); [|apply insertion_sort_perm].
  case_decide as Hchecked; [tauto | apply insertion_sort_perm].
Qed.

Lemma pandas_sort_values_sorted col df :
  Sorted (desc col) (pandas_sort_values col df).
Proof.
  unfold pandas_sort_values.
  destruct (nargsort_descending _); [|apply insertion_sort_sorted].
  case_decide as Hchecked; [tauto | apply insertion_sort_sorted].
Qed.

(** The sort of pandas' default [kind]. *)
Definition pandas_sorter : Sorter :=
  {| sort_values := pandas_sort_values;
     sort_values_perm := pandas_sort_values_perm;
     sort_values_sorted := pandas_sort_values_sorted |}.

(** ** Query Selector *)

Global Instance desc_transitive col : Transitive (desc col).
Proof. unfold desc. intros r1 r2 r3 ? ?. lia. Qed.

Section SelectorFacts.
Context `{S : Sorter}.

Lemma sort_values_strongly_sorted col df :
  StronglySorted (desc col) (sort_values col df).
Proof. apply Sorted_StronglySorted; [apply _ | apply sort_values_sorted]. Qed.

Lemma sort_values_length col df : length (sort_values col df) = length df.
Proof. apply Permutation_length, sort_values_perm. Qed.

Lemma sort_values_nil col : sort_values col [] = [].
Proof. apply Permutation_nil_r, sort_values_perm. Qed.

Lemma top_by_clicks_length group : (length (top_by_clicks group) ≤ 8)%nat.
Proof. unfold top_by_clicks. rewrite length_take. lia. Qed.

Lemma remaining_slots_pos group : 0 < remaining_slots group.
Proof.
  unfold remaining_slots. pose proof (top_by_clicks_length group). lia.
Qed.

Lemma select_top_queries_unfold group :
  select_top_queries group = top_by_clicks group ++ top_by_impressions group.
Proof.
  unfold select_top_queries.
  rewrite bool_decide_eq_true_2; [done | apply remaining_slots_pos].
Qed.

Lemma top_by_clicks_submseteq group : top_by_clicks group ⊆+ group.
Proof.
  unfold top_by_clicks, queries_with_clicks.
  etrans; [apply submseteq_take |]. rewrite sort_values_perm.
  apply sublist_submseteq, sublist_filter.
Qed.

Lemma top_by_impressions_submseteq group :
  top_by_impressions group ⊆+ remaining_queries group.
Proof.
  unfold top_by_impressions.
  etrans; [apply submseteq_take |]. by rewrite sort_values_perm.
Qed.

Lemma select_top_queries_submseteq group : select_top_queries group ⊆+ group.
Proof.
  rewrite select_top_queries_unfold.
  set (P := λ r, Query r ∈ Query <$> top_by_clicks group).
  rewrite <-(filter_app_complement P group) at 3.
  apply submseteq_app.
  - apply submseteq_into_filter; [apply top_by_clicks_submseteq |].
    apply Forall_forall. intros r Hr. by apply list_elem_of_fmap_2.
  - apply top_by_impressions_submseteq.
Qed.

Lemma select_top_queries_length_le group :
  (length (select_top_queries group) ≤ 10)%nat.
Proof.
  rewrite select_top_queries_unfold, length_app.
  unfold top_by_impressions, remaining_slots. rewrite length_take.
  pose proof (top_by_clicks_length group). lia.
Qed.

(** C6. The selection has at most 10 rows and at most as many rows as the
    group, and it is a sub-multiset of the group: every selected row is a
    row of the group, taken no more often than the group has it. *)
Theorem select_top_queries_bounded (group : DataFrame) :
  (length (select_top_queries group) ≤ 10)%nat ∧
  (length (select_top_queries group) ≤ length group)%nat ∧
  select_top_queries group ⊆+ group.
Proof.
  split; [|split].
  - rewrite select_top_queries_unfold, length_app.
    unfold top_by_impressions, remaining_slots. rewrite length_take.
    pose proof (top_by_clicks_length group). lia.
  - apply submseteq_length, select_top_queries_submseteq.
  - apply select_top_queries_submseteq.
Qed.

(** C2, amended. The by-clicks rows are the first 8 rows of a reordering
    of the rows with Clicks > 0 that is sorted descending by Clicks, and the
    by-impressions rows are the first [remaining_slots] rows of a reordering
    of the candidate rows that is sorted descending by Impressions. The
    relative order of rows that tie is left to the sort. *)
Theorem top_queries_sorted (group : DataFrame) :
  (∃ rest,
     top_by_clicks group ++ rest ≡ₚ filter (λ r, 0 < Clicks r) group ∧
     StronglySorted (desc Clicks) (top_by_clicks group ++ rest) ∧
     length (top_by_clicks group)
     = Nat.min 8 (length (filter (λ r, 0 < Clicks r) group))) ∧
  (∃ rest,
     top_by_impressions group ++ rest ≡ₚ remaining_queries group ∧
     StronglySorted (desc Impressions) (top_by_impressions group ++ rest) ∧
     length (top_by_impressions group)
     = Nat.min (Z.to_nat (remaining_slots group))
               (length (remaining_queries group))).
Proof.
  split.
  - exists (drop 8 (queries_with_clicks group)).
    unfold top_by_clicks. rewrite take_drop, length_take.
    unfold queries_with_clicks. rewrite sort_values_length.
    auto using sort_values_perm, sort_values_strongly_sorted.
  - exists (drop (Z.to_nat (remaining_slots group))
                 (sort_values Impressions (remaining_queries group))).
    unfold top_by_impressions.
    rewrite take_drop, length_take, sort_values_length.
    auto using sort_values_perm, sort_values_strongly_sorted.
Qed.

(** C3, amended. Exclusion from the by-impressions candidates is by the
    value of the Query column: a row of the group whose Query text equals
    that of a by-clicks row is not a candidate and is not selected by
    impressions, whether or not it is that very row. *)
Theorem remaining_queries_by_query_text (group : DataFrame) (r1 r2 : Row) :
  r1 ∈ top_by_clicks group → r2 ∈ group → Query r2 = Query r1 →
  (r2 ∉ remaining_queries group) ∧ (r2 ∉ top_by_impressions group).
Proof.
  intros Hr1 Hr2 Hq.
  assert (r2 ∉ remaining_queries group) as Hnot.
  { unfold remaining_queries. rewrite list_elem_of_filter.
    intros [Hout _]. apply Hout. rewrite Hq.
    by apply list_elem_of_fmap_2. }
  split; [done |]. intros Hin. apply Hnot.
  eapply elem_of_submseteq; [done | apply top_by_impressions_submseteq].
Qed.

(** X1. The selection is always the by-clicks rows followed by the
    by-impressions rows: between 2 and 10 slots are left after the first
    tier, so the branch that returns the by-clicks rows alone is never
    taken. Every by-clicks row is a row of the group with Clicks > 0, and
    every by-impressions row is a row of the group whose Query text differs
    from the Query text of every by-clicks row. *)
Theorem select_top_queries_tiers (group : DataFrame) :
  2 ≤ remaining_slots group ≤ 10 ∧
  select_top_queries group = top_by_clicks group ++ top_by_impressions group ∧
  (∀ r, r ∈ top_by_clicks group → r ∈ group ∧ 0 < Clicks r) ∧
  (∀ r, r ∈ top_by_impressions group →
     r ∈ group ∧ ∀ r', r' ∈ top_by_clicks group → Query r ≠ Query r').
Proof.
  split; [|split; [|split]].
  - unfold remaining_slots. pose proof (top_by_clicks_length group). lia.
  - apply select_top_queries_unfold.
  - unfold top_by_clicks, queries_with_clicks. intros r Hr.
    apply subseteq_take in Hr. rewrite sort_values_perm in Hr.
    apply list_elem_of_filter in Hr. tauto.
  - intros r Hr.
    assert (r ∈ remaining_queries group) as Hrem
      by (eapply elem_of_submseteq;
          [done | apply top_by_impressions_submseteq]).
    unfold remaining_queries in Hrem.
    apply list_elem_of_filter in Hrem as [Hout Hin].
    split; [done |]. intros r' Hr' Heq. apply Hout. rewrite Heq.
    by apply list_elem_of_fmap_2.
Qed.

(** X2. When no row of the group has Clicks > 0, the selection is the
    first 10 rows of the group sorted descending by Impressions. *)
Theorem select_without_clicks (group : DataFrame) :
  (∀ r, r ∈ group → Clicks r ≤ 0) →
  select_top_queries group = take 10 (sort_values Impressions group).
Proof.
  intros Hnone.
  assert (filter (λ r, 0 < Clicks r) group = []) as Hclicked.
  { unfold DataFrame in *. induction group as [|r group IH]; [done |].
    rewrite filter_cons_False.
    - apply IH. intros r' Hr'. apply Hnone. by right.
    - pose proof (Hnone r ltac:(left)). lia. }
  assert (top_by_clicks group = []) as Htop.
  { unfold top_by_clicks, queries_with_clicks.
    by rewrite Hclicked, sort_values_nil. }
  rewrite select_top_queries_unfold.
  unfold top_by_impressions, remaining_slots, remaining_queries.
  rewrite Htop. simpl. f_equal. f_equal.
  apply filter_all, Forall_forall. intros r _. apply not_elem_of_nil.
Qed.

(** X3. When at most 8 rows of the group have Clicks > 0, all of them are
    by-clicks rows, and so all of them are selected. *)
Theorem few_clicked_all_selected (group : DataFrame) :
  (length (filter (λ r, (0 < Clicks r)%Z) group) ≤ 8)%nat →
  top_by_clicks group ≡ₚ filter (λ r, 0 < Clicks r) group ∧
  ∀ r, r ∈ group → 0 < Clicks r → r ∈ select_top_queries group.
Proof.
  intros Hfew.
  assert (top_by_clicks group ≡ₚ filter (λ r, 0 < Clicks r) group) as Hall.
  { unfold top_by_clicks, queries_with_clicks.
    rewrite take_ge; [apply sort_values_perm |].
    by rewrite sort_values_length. }
  split; [done |]. intros r Hr Hclicks.
  rewrite select_top_queries_unfold, elem_of_app, Hall. left.
  by apply list_elem_of_filter.
Qed.

(** X4. A group of at most 10 rows whose Query texts are pairwise
    different is selected whole: the selection is a reordering of the
    group. *)
Theorem small_group_selected_whole (group : DataFrame) :
  NoDup (Query <$> group) → (length group ≤ 10)%nat →
  select_top_queries group ≡ₚ group.
Proof.
  intros Hnodup Hsmall.
  apply submseteq_length_Permutation; [apply select_top_queries_submseteq |].
  set (P := λ r, Query r ∈ Query <$> top_by_clicks group).
  assert (length (filter P group) ≤ length (top_by_clicks group))%nat
    as Hsame.
  { rewrite <-(length_fmap Query), <-(length_fmap Query (top_by_clicks _)).
    apply submseteq_length, NoDup_submseteq.
    - eapply sublist_NoDup; [exact Hnodup |].
      apply fmap_sublist, sublist_filter.
    - intros q (r & -> & Hr)%list_elem_of_fmap.
      by apply list_elem_of_filter in Hr as [Hr _]. }
  assert (length (filter P group) + length (remaining_queries group)
          = length group)%nat as Hsplit.
  { rewrite <-length_app. apply Permutation_length.
    apply (filter_app_complement P group). }
  rewrite select_top_queries_unfold, length_app.
  unfold top_by_impressions. rewrite length_take, sort_values_length.
  unfold remaining_slots.
  pose proof (top_by_clicks_length group). lia.
Qed.

End SelectorFacts.

Section SelectorExamples.

Example stable_sorter_on_tie :
  top_by_clicks (S:=stable_sorter) [tie_a; tie_b] = [tie_a; tie_b].
Proof. reflexivity. Qed.

(** On two rows pandas' sort keeps the frame order: numpy sorts short
    arrays by insertion. *)
Example pandas_sorter_on_tie :
  top_by_clicks (S:=pandas_sorter) [tie_a; tie_b] = [tie_a; tie_b].
Proof. vm_compute. reflexivity. Qed.

(** On the forty rows the by-clicks rows are, by label: *)
Example pandas_sorter_on_forty_rows :
  top_by_clicks (S:=pandas_sorter) forty_rows
  = forty_row <$> [20; 15; 2; 38; 4; 22; 6; 24]%nat.
Proof. vm_compute. reflexivity. Qed.

(** C2, as stated, fails. The forty rows all have Clicks > 0; rows 15 and
    20 both have 3 clicks and are both among the by-clicks rows, row 15
    comes before row 20 in the frame, and row 20 comes out before row 15:
    numpy's quicksort partitions an array of more than 16 elements by
    swapping, and that does not keep ties in order. *)
Lemma tie_order_not_guaranteed :
  ¬ ties_keep_input_order Clicks forty_rows
      (top_by_clicks (S:=pandas_sorter) forty_rows).
Proof.
  rewrite pandas_sorter_on_forty_rows. intros Hstable.
  destruct (Hstable (forty_row 15) (forty_row 20))
    as (i & j & Hij & Hi & Hj).
  - apply list_elem_of_fmap_2. right; left.
  - apply list_elem_of_fmap_2. left.
  - reflexivity.
  - exists 15%nat, 20%nat. by repeat split; [lia | ..].
  - destruct i as [|[|[|[|[|[|[|[|i]]]]]]]];
      vm_compute in Hi; try discriminate Hi.
    destruct j as [|[|[|[|[|[|[|[|j]]]]]]]];
      vm_compute in Hj; try discriminate Hj.
    lia.
Qed.

Example select_drops_same_query :
  select_top_queries (S:=stable_sorter) [dup_clicked; dup_unclicked]
  = [dup_clicked].
Proof. reflexivity. Qed.

(** C3, as stated, fails: [dup_clicked] and [dup_unclicked] are two rows
    with the same Query text; the first goes into by-clicks, the second
    does not, and still the second is removed from the candidates. *)
Lemma exclusion_is_not_by_row_identity :
  let group := [dup_clicked; dup_unclicked] in
  dup_clicked ∈ group ∧ dup_unclicked ∈ group ∧
  dup_clicked ≠ dup_unclicked ∧
  Query dup_clicked = Query dup_unclicked ∧
  dup_clicked ∈ top_by_clicks (S:=stable_sorter) group ∧
  (dup_unclicked ∉ top_by_clicks (S:=stable_sorter) group) ∧
  (dup_unclicked ∉ remaining_queries (S:=stable_sorter) group).
Proof.
  assert (top_by_clicks (S:=stable_sorter) [dup_clicked; dup_unclicked]
          = [dup_clicked]) as Htop by reflexivity.
  assert (remaining_queries (S:=stable_sorter) [dup_clicked; dup_unclicked]
          = []) as Hrem by reflexivity.
  simpl. rewrite Htop, Hrem.
  repeat split; try done.
  - left.
  - right; left.
  - left.
  - rewrite list_elem_of_singleton. discriminate.
  - apply not_elem_of_nil.
Qed.

Lemma remaining_queries_by_query_text_witness :
  let group := [dup_clicked; dup_unclicked] in
  dup_clicked ∈ top_by_clicks (S:=stable_sorter) group ∧
  dup_unclicked ∈ group ∧
  Query dup_unclicked = Query dup_clicked ∧
  (dup_unclicked ∉ remaining_queries (S:=stable_sorter) group) ∧
  (dup_unclicked ∉ top_by_impressions (S:=stable_sorter) group).
Proof.
  intros group.
  assert (dup_clicked ∈ top_by_clicks (S:=stable_sorter) group) as H1
    by (vm_compute; left).
  assert (dup_unclicked ∈ group) as H2 by (right; left).
  assert (Query dup_unclicked = Query dup_clicked) as H3 by reflexivity.
  split; [exact H1 |]. split; [exact H2 |]. split; [exact H3 |].
  exact (remaining_queries_by_query_text (S:=stable_sorter)
           group dup_clicked dup_unclicked H1 H2 H3).
Defined.

Lemma select_without_clicks_witness :
  (∀ r, r ∈ [unclicked_1; unclicked_2; unclicked_3] → Clicks r ≤ 0) ∧
  select_top_queries (S:=stable_sorter)
    [unclicked_1; unclicked_2; unclicked_3]
  = take 10 (sort_values (Sorter:=stable_sorter) Impressions
               [unclicked_1; unclicked_2; unclicked_3]).
Proof.
  assert (∀ r, r ∈ [unclicked_1; unclicked_2; unclicked_3] → Clicks r ≤ 0)
    as Hnone.
  { intros r Hr. rewrite !elem_of_cons, elem_of_nil in Hr.
    destruct Hr as [-> | [-> | [-> | []]]]; simpl; lia. }
  split; [exact Hnone |].
  exact (select_without_clicks (S:=stable_sorter) _ Hnone).
Defined.

Lemma few_clicked_all_selected_witness :
  (length (filter (λ r, (0 < Clicks r)%Z) [tie_a; unclicked_2; tie_b])
   ≤ 8)%nat ∧
  top_by_clicks (S:=stable_sorter) [tie_a; unclicked_2; tie_b]
  ≡ₚ filter (λ r, 0 < Clicks r) [tie_a; unclicked_2; tie_b] ∧
  ∀ r, r ∈ [tie_a; unclicked_2; tie_b] → 0 < Clicks r →
    r ∈ select_top_queries (S:=stable_sorter) [tie_a; unclicked_2; tie_b].
Proof.
  assert (length (filter (λ r, (0 < Clicks r)%Z)
                    [tie_a; unclicked_2; tie_b]) ≤ 8)%nat as Hfew
    by (vm_compute; lia).
  split; [exact Hfew |].
  exact (few_clicked_all_selected (S:=stable_sorter) _ Hfew).
Defined.

Lemma small_group_selected_whole_witness :
  NoDup (Query <$> [tie_a; unclicked_2; tie_b]) ∧
  (length [tie_a; unclicked_2; tie_b] ≤ 10)%nat ∧
  select_top_queries (S:=stable_sorter) [tie_a; unclicked_2; tie_b]
  ≡ₚ [tie_a; unclicked_2; tie_b].
Proof.
  assert (NoDup (Query <$> [tie_a; unclicked_2; tie_b])) as Hnodup
    by (refine (bool_decide_unpack _ _); vm_compute; exact I).
  assert (length [tie_a; unclicked_2; tie_b] ≤ 10)%nat as Hsmall
    by (simpl; lia).
  split; [exact Hnodup |]. split; [exact Hsmall |].
  exact (small_group_selected_whole (S:=stable_sorter) _ Hnodup Hsmall).
Defined.

End SelectorExamples.

(** ** URL Fetcher *)

Section FetcherFacts.

(** C4, as stated, fails: after the failed fetch at time 0 the cache holds
    an entry for the URL, and the fetch at time 200, within the hour, sends
    no request and returns the stored failure although the network would
    now answer. *)
Lemma failed_fetch_is_stored :
  let first := fetch_html_content flaky 0 site_a 10 ∅ in
  let second := fetch_html_content flaky 200 site_a 10 (cache_after first) in
  value first = None ∧
  cache_after first !! (site_a, 10) = Some (None, 0) ∧
  (fetch_body flaky 200 site_a 10).1 = Some "<title>Trail shoes</title>" ∧
  requests_sent second = [] ∧ value second = None.
Proof.
  intros first second.
  assert (cache_after first = <[(site_a, 10) := (None, 0)]> ∅) as Hcache
    by reflexivity.
  assert (cache_after first !! (site_a, 10) = Some (None, 0)) as Hentry
    by (rewrite Hcache; apply lookup_insert_eq).
  split; [done |]. split; [done |]. split; [done |].
  unfold second, fetch_html_content. by rewrite Hentry.
Qed.

(** C4, amended. The fetcher stores whatever the body returns, the failure
    indicator included: after a fetch of a URL that returns the failure
    indicator, the cache holds that failure for the URL, and every fetch
    of the URL before the entry is an hour old returns the failure again,
    sends no request and leaves the cache as it is. *)
Theorem failure_is_cached (net : Network) (now : Z) (url : string)
    (timeout : Z) (cache : gmap (string * Z) (option string * Z)) :
  value (fetch_html_content net now url timeout cache) = None →
  let cache' := cache_after (fetch_html_content net now url timeout cache) in
  ∃ stored,
    cache' !! (url, timeout) = Some (None, stored) ∧
    now < stored + ttl ∧
    ∀ (net' : Network) (now' : Z), now' < stored + ttl →
      fetch_html_content net' now' url timeout cache'
      = {| value := None; cache_after := cache'; requests_sent := [] |}.
Proof.
  unfold fetch_html_content.
  destruct (cache !! (url, timeout)) as [[v stored]|] eqn:Hlook;
    [case_bool_decide as Hlive |]; simpl; intros Hnone.
  - subst v. exists stored. split; [done |]. split; [done |].
    intros net' now' Hnow'. rewrite Hlook.
    by rewrite bool_decide_eq_true_2.
  - rewrite Hnone. exists now. rewrite lookup_insert_eq.
    split; [done |]. split; [unfold ttl; lia |].
    intros net' now' Hnow'. by rewrite bool_decide_eq_true_2.
  - rewrite Hnone. exists now. rewrite lookup_insert_eq.
    split; [done |]. split; [unfold ttl; lia |].
    intros net' now' Hnow'. by rewrite bool_decide_eq_true_2.
Qed.

Lemma failure_is_cached_witness :
  value (fetch_html_content flaky 0 site_a 10 ∅) = None ∧
  ∃ stored,
    cache_after (fetch_html_content flaky 0 site_a 10 ∅) !! (site_a, 10)
    = Some (None, stored) ∧
    0 < stored + ttl ∧
    ∀ (net' : Network) (now' : Z), now' < stored + ttl →
      fetch_html_content net' now' site_a 10
        (cache_after (fetch_html_content flaky 0 site_a 10 ∅))
      = {| value := None;
           cache_after :=
             cache_after (fetch_html_content flaky 0 site_a 10 ∅);
           requests_sent := [] |}.
Proof.
  assert (value (fetch_html_content flaky 0 site_a 10 ∅) = None) as Hfail
    by reflexivity.
  split; [exact Hfail |].
  exact (failure_is_cached flaky 0 site_a 10 ∅ Hfail).
Defined.

End FetcherFacts.

Section FetcherMore.

(** X9. The body of the fetch returns the page text exactly when the
    network answers and the status code is not a 4xx or 5xx code; in every
    other case it returns the failure indicator and shows exactly one
    warning. A successful fetch shows no warning. *)
Theorem fetch_body_outcome (net : Network) (now : Z) (url : string)
    (timeout : Z) :
  (∀ text,
     (fetch_body net now url timeout).1 = Some text ↔
     ∃ status_code,
       net now url timeout = Response status_code text ∧
       ¬ (400 ≤ status_code < 600)) ∧
  ((fetch_body net now url timeout).1 = None →
     length (fetch_body net now url timeout).2 = 1%nat) ∧
  (is_Some (fetch_body net now url timeout).1 →
     (fetch_body net now url timeout).2 = []).
Proof.
  unfold fetch_body, raise_for_status.
  destruct (net now url timeout) as [status_code text' | message];
    [case_bool_decide as Hcode |]; simpl.
  - split; [|split; [done | by intros [? ?]]]. intros text. split; [done |].
    intros (c & Heq & Hok). injection Heq as -> ->. done.
  - split; [|split; [done | done]]. intros text. split.
    + intros [= ->]. eauto.
    + intros (c & Heq & _). by injection Heq as -> ->.
  - split; [|split; [done | by intros [? ?]]]. intros text. split; [done |].
    by intros (c & Heq & _).
Qed.

(** X10. Whatever the cache held before, after a fetch the cache holds
    for the same arguments the value the fetch just returned, in an entry
    that is still live; a fetch with these arguments made before the entry
    is an hour old returns that value again, sends no request and leaves
    the cache as it is, whatever the network would answer. *)
Theorem fetch_then_refetch (net : Network) (now : Z) (url : string)
    (timeout : Z) (cache : gmap (string * Z) (option string * Z)) :
  let first := fetch_html_content net now url timeout cache in
  ∃ stored,
    cache_after first !! (url, timeout) = Some (value first, stored) ∧
    now < stored + ttl ∧
    ∀ (net' : Network) (now' : Z), now' < stored + ttl →
      fetch_html_content net' now' url timeout (cache_after first)
      = {| value := value first; cache_after := cache_after first;
           requests_sent := [] |}.
Proof.
  unfold fetch_html_content.
  destruct (cache !! (url, timeout)) as [[v stored]|] eqn:Hlook;
    [case_bool_decide as Hlive |]; simpl.
  - exists stored. split; [done |]. split; [done |].
    intros net' now' Hnow'. rewrite Hlook.
    by rewrite bool_decide_eq_true_2.
  - exists now. rewrite lookup_insert_eq.
    split; [done |]. split; [unfold ttl; lia |].
    intros net' now' Hnow'. by rewrite bool_decide_eq_true_2.
  - exists now. rewrite lookup_insert_eq.
    split; [done |]. split; [unfold ttl; lia |].
    intros net' now' Hnow'. by rewrite bool_decide_eq_true_2.
Qed.

(** X11. A fetch sends no request exactly when the cache holds, for its
    arguments, an entry less than an hour old; otherwise it sends exactly
    one request, to the URL, returns what the body returns and stores that
    value with the current time. *)
Theorem request_sent_unless_live_entry (net : Network) (now : Z)
    (url : string) (timeout : Z)
    (cache : gmap (string * Z) (option string * Z)) :
  let fetched := fetch_html_content net now url timeout cache in
  (requests_sent fetched = [] ↔
     ∃ v stored, cache !! (url, timeout) = Some (v, stored) ∧
                 now < stored + ttl) ∧
  (requests_sent fetched ≠ [] →
     requests_sent fetched = [url] ∧
     value fetched = (fetch_body net now url timeout).1 ∧
     cache_after fetched !! (url, timeout) = Some (value fetched, now)).
Proof.
  unfold fetch_html_content.
  destruct (cache !! (url, timeout)) as [[v stored]|] eqn:Hlook;
    [case_bool_decide as Hlive |]; simpl.
  - split; [|done]. split; [eauto | done].
  - split.
    + split; [done |]. intros (v' & stored' & [= -> ->] & Hlt). lia.
    + intros _. by rewrite lookup_insert_eq.
  - split.
    + split; [done |]. by intros (v' & stored' & Heq & _).
    + intros _. by rewrite lookup_insert_eq.
Qed.

(** X12. A fetch changes no cache entry but the one of its own arguments:
    entries of other URLs, and of the same URL with another timeout, stay
    as they are. *)
Theorem fetch_keeps_other_entries (net : Network) (now : Z) (url : string)
    (timeout : Z) (cache : gmap (string * Z) (option string * Z))
    (key : string * Z) :
  key ≠ (url, timeout) →
  cache_after (fetch_html_content net now url timeout cache) !! key
  = cache !! key.
Proof.
  intros Hkey. unfold fetch_html_content.
  destruct (cache !! (url, timeout)) as [[v stored]|];
    [case_bool_decide |]; simpl; [done | |]; by rewrite lookup_insert_ne.
Qed.

Lemma fetch_keeps_other_entries_witness :
  (site_a, 10) ≠ (site_a, 30) ∧
  cache_after (fetch_html_content one_missing 60 site_a 30 one_entry)
    !! (site_a, 10)
  = one_entry !! (site_a, 10).
Proof.
  assert ((site_a, 10) ≠ (site_a, 30)) as Hkey
    by discriminate.
  split; [exact Hkey |].
  exact (fetch_keeps_other_entries one_missing 60 site_a 30
           one_entry (site_a, 10) Hkey).
Defined.

End FetcherMore.

(** ** Result Aggregator: the loop *)

(** A loop whose body always returns, returns the list of what the body
    returned. *)
Lemma mapM_returns {A B} (f : A → result B) (g : A → B) (l : list A) :
  (∀ x, f x = Ok (g x)) → mapM f l = Ok (g <$> l).
Proof.
  intros Hf. induction l as [|x l IH]; [done |].
  change (mapM f (x :: l)) with (y ← f x; k ← mapM f l; mret (y :: k)).
  by rewrite Hf, IH.
Qed.

Section PipelineFacts.
Context `{U : UnicodeData} `{BS : BeautifulSoup} `{S : Sorter}.

Lemma analyse_returns df url html_content cache :
  analyse df url html_content cache
  = Ok (record_of (parse_html cache html_content).1 url
          <$> select_top_queries (url_group df url),
        (parse_html cache html_content).2).
Proof.
  unfold analyse. destruct (parse_html cache html_content) as [page cache'].
  rewrite (mapM_returns _ (record_of page url)); [done |].
  intros query_row. by rewrite check_query_presence_returns.
Qed.

Lemma on_completed_returns df results processed_urls cache completed :
  on_completed df (results, processed_urls, cache) completed
  = Ok (results ++ records_for df cache completed,
        processed_urls ∪ {[completed.1]}, cache_for cache completed).
Proof.
  destruct completed as [url html_content].
  unfold on_completed, records_for, cache_for. simpl.
  destruct (truthy html_content); [|done].
  by rewrite analyse_returns.
Qed.

(** The loop never raises; it appends the records of the completed
    futures in completion order and marks every URL processed. *)
Lemma main_loop_returns df results processed_urls cache completions :
  main_loop df (results, processed_urls, cache) completions
  = Ok (results ++ loop_records df cache completions,
        processed_urls ∪ list_to_set completions.*1,
        loop_cache cache completions).
Proof.
  revert results processed_urls cache.
  induction completions as [|c rest IH];
    intros results processed_urls cache.
  - simpl. by rewrite app_nil_r, (right_id_L ∅ (∪)).
  - cbn [main_loop]. rewrite on_completed_returns. simpl.
    by rewrite IH, <-app_assoc, (assoc_L (∪)).
Qed.

Lemma loop_records_app df cache before after :
  loop_records df cache (before ++ after)
  = loop_records df cache before
    ++ loop_records df (loop_cache cache before) after.
Proof.
  revert cache. induction before as [|c before IH]; intros cache; [done |].
  simpl. by rewrite IH, <-app_assoc.
Qed.

Lemma loop_cache_app cache before after :
  loop_cache cache (before ++ after)
  = loop_cache (loop_cache cache before) after.
Proof. apply foldl_app. Qed.


Lemma records_for_url df cache completed r :
  r ∈ records_for df cache completed → URL r = completed.1.
Proof.
  unfold records_for. destruct (truthy completed.2).
  - intros (row & -> & _)%list_elem_of_fmap. done.
  - by intros ?%elem_of_nil.
Qed.

Lemma records_for_length df cache completed :
  (length (records_for df cache completed) ≤ 10)%nat.
Proof.
  unfold records_for. destruct (truthy completed.2); simpl; [|lia].
  rewrite length_fmap. apply select_top_queries_length_le.
Qed.

Lemma elem_of_loop_records df cache completions r :
  r ∈ loop_records df cache completions →
  ∃ before c after,
    completions = before ++ c :: after ∧
    r ∈ records_for df (loop_cache cache before) c.
Proof.
  revert cache. induction completions as [|c rest IH]; intros cache.
  - by intros ?%elem_of_nil.
  - simpl. intros [Hr | Hr]%elem_of_app.
    + by exists [], c, rest.
    + destruct (IH _ Hr) as (before & c' & after & -> & Hr').
      by exists (c :: before), c', after.
Qed.

Lemma loop_records_url df cache completions r :
  r ∈ loop_records df cache completions → URL r ∈ completions.*1.
Proof.
  intros (before & c & after & -> & Hr)%elem_of_loop_records.
  apply records_for_url in Hr as ->.
  apply list_elem_of_fmap_2, elem_of_app. right. left.
Qed.

Lemma filter_url_none (url : string) (l : list AnalysisRecord) :
  (∀ r, r ∈ l → URL r ≠ url) → filter (λ r, URL r = url) l = [].
Proof.
  induction l as [|r l IH]; intros Hl; [done |].
  rewrite filter_cons_False; [|apply Hl; left].
  apply IH. intros r' Hr'. apply Hl. by right.
Qed.

Lemma loop_records_per_url df cache completions url :
  NoDup completions.*1 →
  (length (filter (λ r, URL r = url) (loop_records df cache completions))
   ≤ 10)%nat.
Proof.
  revert cache. induction completions as [|c cs IH]; intros cache Hnodup;
    [simpl; lia |].
  rewrite fmap_cons in Hnodup. apply NoDup_cons in Hnodup as [Hc Hcs].
  cbn [loop_records]. rewrite filter_app, length_app.
  destruct (decide (c.1 = url)) as [<- | Hne].
  - rewrite (filter_url_none c.1 (loop_records _ _ _)).
    + pose proof (length_filter (λ r, URL r = c.1)
                    (records_for df cache c)).
      pose proof (records_for_length df cache c). simpl. lia.
    + intros r Hr%loop_records_url Heq. by rewrite Heq in Hr.
  - rewrite (filter_url_none url (records_for df cache c)).
    + simpl. by apply IH.
    + intros r Hr%records_for_url. congruence.
Qed.

(** C1, amended. When a URL's fetch fails, the loop still returns: it adds
    no record for that URL, it adds the URL to the processed set, and the
    records of the other URLs are those of the batch without the failed
    URL. *)
Theorem failed_fetch_adds_no_record (df : DataFrame)
    (results : list AnalysisRecord) (processed_urls : gset string)
    (cache : option ParsedHtml)
    (before after : list (string * option string)) (url : string) :
  url ∉ (before ++ after).*1 →
  ∃ results' processed_urls' cache',
    main_loop df (results, processed_urls, cache)
      (before ++ (url, None) :: after)
    = Ok (results', processed_urls', cache') ∧
    url ∈ processed_urls' ∧
    (∀ r, r ∈ results' → URL r = url → r ∈ results) ∧
    main_loop df (results, processed_urls, cache) (before ++ after)
    = Ok (results', processed_urls' ∖ {[url]} ∪ (processed_urls ∩ {[url]}),
          cache').
Proof.
  intros Hfresh. eexists _, _, _. split; [apply main_loop_returns |].
  assert (loop_records df cache (before ++ (url, None) :: after)
          = loop_records df cache (before ++ after)) as ->.
  { by rewrite !loop_records_app. }
  assert (loop_cache cache (before ++ (url, None) :: after)
          = loop_cache cache (before ++ after)) as ->.
  { by rewrite !loop_cache_app. }
  assert ((before ++ (url, None) :: after).*1
          = before.*1 ++ url :: after.*1) as ->.
  { by rewrite fmap_app. }
  split; [set_solver |]. split.
  - intros r Hr Hurl.
    apply elem_of_app in Hr as [Hr | Hr]; [done |]. exfalso.
    apply loop_records_url in Hr. apply Hfresh. by rewrite <-Hurl.
  - rewrite main_loop_returns, fmap_app. rewrite fmap_app in Hfresh.
    do 3 f_equal. apply set_eq. intros u.
    destruct (decide (u = url)) as [-> |]; set_solver.
Qed.

Lemma first_body_truthy completions html_content :
  first_body completions = Some html_content → html_content ≠ "".
Proof.
  induction completions as [|c rest IH]; [done |]. simpl.
  destruct (truthy c.2) eqn:Hc; [|done]. intros Heq. rewrite Heq in Hc.
  by apply bool_decide_eq_true in Hc.
Qed.





(** X17. When every completed future belongs to a different URL, the loop
    adds at most 10 records for any one URL. *)
Theorem main_loop_at_most_ten_per_url (df : DataFrame)
    (results : list AnalysisRecord) (processed_urls : gset string)
    (cache : option ParsedHtml)
    (completions : list (string * option string)) (url : string) :
  NoDup completions.*1 →
  ∃ new processed_urls' cache',
    main_loop df (results, processed_urls, cache) completions
    = Ok (results ++ new, processed_urls', cache') ∧
    (length (filter (λ r, URL r = url) new) ≤ 10)%nat.
Proof.
  intros Hnodup. eexists _, _, _. split; [apply main_loop_returns |].
  by apply loop_records_per_url.
Qed.

(** X18. A fetch that succeeds with an empty body is treated like a
    failed fetch: the loop returns the same records, the same processed
    set and the same parser cache in both cases. *)
Theorem empty_body_like_failure (df : DataFrame)
    (state : list AnalysisRecord * gset string * option ParsedHtml)
    (before after : list (string * option string)) (url : string) :
  main_loop df state (before ++ (url, Some "") :: after)
  = main_loop df state (before ++ (url, None) :: after).
Proof.
  destruct state as [[results processed_urls] cache].
  rewrite !main_loop_returns, !fmap_app, !fmap_cons,
    !loop_records_app, !loop_cache_app. done.
Qed.

End PipelineFacts.

Section PipelineExamples.

(** C1, as stated, fails: the group of the URL has one selected query, the
    fetch fails, and the loop returns no record at all for the URL. *)
Lemma failed_fetch_yields_no_record :
  select_top_queries (S:=stable_sorter) (url_group [row_a; row_b] site_a)
  = [row_a] ∧
  main_loop (U:=basic_unicode) (BS:=no_markup) (S:=stable_sorter)
    [row_a; row_b] ([], ∅, None) [(site_a, None)]
  = Ok ([], {[site_a]}, None).
Proof.
  split; [reflexivity |]. by rewrite main_loop_returns.
Qed.

Lemma failed_fetch_adds_no_record_witness :
  (site_a ∉ ([(site_b, Some "plain text")] ++ []).*1) ∧
  ∃ results' processed_urls' cache',
    main_loop (U:=basic_unicode) (BS:=no_markup) (S:=stable_sorter)
      [row_a; row_b] ([], ∅, None)
      ([(site_b, Some "plain text")] ++ (site_a, None) :: [])
    = Ok (results', processed_urls', cache') ∧
    site_a ∈ processed_urls' ∧
    (∀ r, r ∈ results' → URL r = site_a → r ∈ []) ∧
    main_loop (U:=basic_unicode) (BS:=no_markup) (S:=stable_sorter)
      [row_a; row_b] ([], ∅, None)
      ([(site_b, Some "plain text")] ++ [])
    = Ok (results', processed_urls' ∖ {[site_a]} ∪ (∅ ∩ {[site_a]}),
          cache').
Proof.
  assert (site_a ∉ ([(site_b, Some "plain text")] ++ []).*1) as Hfresh.
  { simpl. rewrite list_elem_of_singleton. discriminate. }
  split; [exact Hfresh |].
  exact (failed_fetch_adds_no_record (U:=basic_unicode) (BS:=no_markup)
           (S:=stable_sorter) [row_a; row_b] [] ∅ None
           [(site_b, Some "plain text")] [] site_a Hfresh).
Defined.

Lemma main_loop_at_most_ten_per_url_witness :
  NoDup [(site_b, Some "plain text"); (site_a, None)].*1 ∧
  ∃ new processed_urls' cache',
    main_loop (U:=basic_unicode) (BS:=no_markup) (S:=stable_sorter)
      [row_a; row_b] ([], ∅, None)
      [(site_b, Some "plain text"); (site_a, None)]
    = Ok ([] ++ new, processed_urls', cache') ∧
    (length (filter (λ r, URL r = site_b) new) ≤ 10)%nat.
Proof.
  assert (NoDup [(site_b, Some "plain text"); (site_a, None)].*1)
    as Hnodup
    by (refine (bool_decide_unpack _ _); vm_compute; exact I).
  split; [exact Hnodup |].
  exact (main_loop_at_most_ten_per_url (U:=basic_unicode) (BS:=no_markup)
           (S:=stable_sorter) [row_a; row_b] [] ∅ None _ site_b Hnodup).
Defined.

(** Two pages with different titles are fetched; the records of the second
    one to complete are computed on the dictionary of the first. *)
Example second_page_checked_on_first :
  loop_records (U:=basic_unicode) (BS:=title_only) (S:=stable_sorter)
    [row_a; row_b] None
    [(site_b, Some "plain"); (site_a, Some "trail shoes")]
  = [record_of (U:=basic_unicode) (parse_html_body (BS:=title_only) "plain")
       site_b row_b;
     record_of (U:=basic_unicode) (parse_html_body (BS:=title_only) "plain")
       site_a row_a].
Proof. reflexivity. Qed.

End PipelineExamples.

(** ** Result Aggregator: a whole run and the summary *)

Section CountingFacts.

(** A list in which no URL has more than [k] records has at most [k]
    records per distinct URL. *)
Lemma length_le_per_url (k : nat) (l : list AnalysisRecord) :
  (∀ url, length (filter (λ r, URL r = url) l) ≤ k)%nat →
  (length l ≤ k * size (list_to_set (URL <$> l) : gset string))%nat.
Proof.
  remember (length l) as n eqn:Hn. revert l Hn.
  induction n as [n IH] using lt_wf_ind. intros l -> Hper.
  destruct l as [|r l]; [simpl; lia |].
  set (u := URL r). set (all := r :: l) in *.
  set (others := filter (λ r', ¬ (URL r' = u)) all).
  assert (length (filter (λ r', URL r' = u) all) + length others
          = length all)%nat as Hsplit.
  { rewrite <-length_app. apply Permutation_length.
    apply (filter_app_complement (λ r', URL r' = u) all). }
  assert (0 < length (filter (λ r', URL r' = u) all))%nat as Hpos.
  { unfold all. rewrite filter_cons_True by done. simpl. lia. }
  assert (list_to_set (URL <$> all)
          = ({[u]} ∪ list_to_set (URL <$> others) : gset string)) as Hset.
  { apply set_eq. intros v.
    rewrite elem_of_union, elem_of_singleton, !elem_of_list_to_set,
      !list_elem_of_fmap.
    split.
    - intros (r' & -> & Hr'). destruct (decide (URL r' = u)); [by left |].
      right. exists r'. split; [done |]. by apply list_elem_of_filter.
    - intros [-> | (r' & -> & Hr')].
      + exists r. split; [done | left].
      + exists r'. split; [done |].
        by apply list_elem_of_filter in Hr' as [_ Hr']. }
  assert (({[u]} : gset string) ## list_to_set (URL <$> others)) as Hdisj.
  { apply disjoint_singleton_l. rewrite elem_of_list_to_set.
    intros (r' & Heq & Hr')%list_elem_of_fmap.
    by apply list_elem_of_filter in Hr' as [Hne _]. }
  rewrite Hset, size_union, size_singleton by done.
  assert (length others
          ≤ k * size (list_to_set (URL <$> others) : gset string))%nat.
  { apply (IH (length others)); [lia | done |]. intros url.
    etrans; [|apply (Hper url)].
    apply submseteq_length, filter_submseteq_mono, sublist_submseteq,
      sublist_filter. }
  pose proof (Hper u). lia.
Qed.

End CountingFacts.

Section MainFacts.
Context `{U : UnicodeData} `{RE : Regex} `{BS : BeautifulSoup}
  `{S : Sorter} `{EX : Executor}.

Lemma as_completed_NoDup X : NoDup (as_completed X).
Proof. rewrite as_completed_perm. apply NoDup_elements. Qed.

Lemma elem_of_as_completed X url : url ∈ as_completed X ↔ url ∈ X.
Proof. by rewrite as_completed_perm, elem_of_elements. Qed.

Lemma as_completed_empty : as_completed ∅ = [].
Proof.
  apply Permutation_nil_r. by rewrite as_completed_perm, elements_empty.
Qed.

Lemma completions_urls (fetched : string → option string) urls :
  ((λ url, (url, fetched url)) <$> urls).*1 = urls.
Proof. rewrite <-list_fmap_compose. apply list_fmap_id. Qed.


(** What a run does once the filter has returned: it stops at the error
    message when the filtered frame is empty, and otherwise stores the new
    records, marks every landing page of the frame processed and leaves
    the parser's cache as the loop left it. *)
Lemma main_returns uploaded branded_terms fetched cache session df :
  process_data uploaded branded_terms = Ok df →
  let completions :=
    (λ url, (url, fetched url))
      <$> as_completed (urls_to_process df (session_processed session)) in
  main uploaded branded_terms fetched cache session
  = if bool_decide (df = []) then Ok (None, cache)
    else Ok (Some {|
      session_results :=
        store_results (session_results session)
          (loop_records df cache completions);
      session_processed :=
        session_processed session ∪ list_to_set (LandingPage <$> df) |},
      loop_cache cache completions).
Proof.
  intros Hdf completions. unfold main. rewrite Hdf. simpl.
  destruct (decide (df = [])) as [Hnil | Hne].
  { by rewrite !bool_decide_eq_true_2. }
  rewrite !bool_decide_eq_false_2 by done. fold completions.
  rewrite main_loop_returns. simpl. do 4 f_equal.
  unfold completions. rewrite completions_urls. unfold urls_to_process.
  apply set_eq. intros url.
  rewrite !elem_of_union, elem_of_list_to_set, elem_of_as_completed,
    elem_of_difference.
  destruct (decide (url ∈ session_processed session)); tauto.
Qed.

Lemma main_raises uploaded branded_terms fetched cache session e :
  process_data uploaded branded_terms = Raise e →
  main uploaded branded_terms fetched cache session = Raise e.
Proof. intros Hdf. unfold main. by rewrite Hdf. Qed.

(** A run that returned got a frame from the filter. *)
Lemma main_returned uploaded branded_terms fetched cache session outcome :
  main uploaded branded_terms fetched cache session = Ok outcome →
  ∃ df, process_data uploaded branded_terms = Ok df.
Proof.
  destruct (process_data uploaded branded_terms) as [df | e] eqn:Hdf;
    [by exists df |].
  by rewrite (main_raises _ _ _ _ _ e Hdf).
Qed.

(** X19. A run marks every landing page of the filtered frame processed,
    so a second run on the same upload and terms has no URL left to fetch
    and leaves the session exactly as the first run left it, whatever the
    fetches would return then; it does not call the parser, so the parser's
    cache stays as it is too. *)
Theorem rerun_changes_nothing (uploaded : DataFrame)
    (branded_terms : list (list N))
    (fetched fetched' : string → option string)
    (cache cache' : option ParsedHtml) (session session' : Session) :
  main uploaded branded_terms fetched cache session
  = Ok (Some session', cache') →
  ∃ df,
    process_data uploaded branded_terms = Ok df ∧
    urls_to_process df (session_processed session') = ∅ ∧
    ∀ later_cache,
      main uploaded branded_terms fetched' later_cache session'
      = Ok (Some session', later_cache).
Proof.
  intros Hrun. destruct (main_returned _ _ _ _ _ _ Hrun) as [df Hdf].
  exists df. split; [done |]. revert Hrun.
  rewrite (main_returns _ _ _ _ _ df Hdf).
  case_bool_decide as Hne; [done |]. intros [= <- _]. simpl.
  assert (urls_to_process df
            (session_processed session ∪ list_to_set (LandingPage <$> df))
          = ∅) as Hdone.
  { unfold urls_to_process. set_solver. }
  split; [done |]. intros later_cache.
  rewrite (main_returns _ _ _ _ _ df Hdf).
  rewrite bool_decide_eq_false_2 by done. simpl.
  rewrite Hdone, as_completed_empty. simpl. do 4 f_equal. set_solver.
Qed.

(** X20. A run keeps the session well formed: if the stored results are
    not an empty list, every stored record belongs to a processed URL and
    no URL has more than 10 records, then the same holds after the run. The
    session the script starts with is well formed. *)
Theorem main_keeps_session_ok (uploaded : DataFrame)
    (branded_terms : list (list N)) (fetched : string → option string)
    (cache cache' : option ParsedHtml) (session session' : Session) :
  session_ok session →
  main uploaded branded_terms fetched cache session
  = Ok (Some session', cache') →
  session_ok initial_session ∧ session_ok session'.
Proof.
  intros [Hne Hok] Hrun.
  destruct (main_returned _ _ _ _ _ _ Hrun) as [df Hdf]. revert Hrun.
  rewrite (main_returns _ _ _ _ _ df Hdf).
  case_bool_decide as Hdf_ne; [done |]. intros [= <- _].
  split; [by split |].
  set (todo := urls_to_process df (session_processed session)).
  set (completions := (λ url, (url, fetched url)) <$> as_completed todo).
  set (new := loop_records df cache completions).
  assert (∀ r, r ∈ new → URL r ∈ todo) as Hnew.
  { intros r Hr%loop_records_url. unfold completions in Hr.
    rewrite completions_urls in Hr. by apply elem_of_as_completed. }
  assert (∀ url, (length (filter (λ r, URL r = url) new) ≤ 10)%nat)
    as Hten.
  { intros url. apply loop_records_per_url. unfold completions.
    rewrite completions_urls. apply as_completed_NoDup. }
  assert (∀ url, url ∈ todo →
            url ∈ session_processed session ∪ list_to_set (LandingPage <$> df))
    as Htodo by (unfold todo, urls_to_process; set_solver).
  unfold session_ok. simpl.
  destruct new as [|r0 new'] eqn:Hnew_eq; simpl.
  - split; [done |]. intros results Hres.
    destruct (Hok results Hres) as [Hin Hcount].
    split; [|done]. intros r Hr. apply elem_of_union. left. by apply Hin.
  - destruct (session_results session) as [old|] eqn:Hold.
    + split; [by destruct old |]. intros results [= <-].
      destruct (Hok old eq_refl) as [Hin Hcount]. split.
      * intros r [Hr | Hr]%elem_of_app.
        -- apply elem_of_union. left. by apply Hin.
        -- by apply Htodo, Hnew.
      * intros url. rewrite filter_app, length_app.
        destruct (decide (url ∈ session_processed session)) as [Hp | Hp].
        -- rewrite (filter_url_none url (r0 :: new')); [simpl |].
           ++ pose proof (Hcount url). lia.
           ++ intros r Hr%Hnew Heq. rewrite Heq in Hr.
              unfold todo, urls_to_process in Hr. set_solver.
        -- rewrite (filter_url_none url old); [simpl; apply Hten |].
           intros r Hr%Hin Heq. by rewrite Heq in Hr.
    + split; [done |]. intros results [= <-]. split; [|done].
      intros r Hr. by apply Htodo, Hnew.
Qed.


End MainFacts.

Section SummaryFacts.

(** X21. In a well-formed session the summary never divides by zero, and
    when metrics are shown there is at least one URL, at least one record,
    and at most 10 records per URL on average. *)
Theorem show_results_defined (session : Session) :
  session_ok session →
  show_results session ≠ ZeroDivisionError ∧
  ∀ total_urls total_queries,
    show_results session = Metrics total_urls total_queries →
    (1 ≤ total_urls ∧ 1 ≤ total_queries ∧
     total_queries ≤ 10 * total_urls)%nat.
Proof.
  intros [Hne Hok]. unfold show_results.
  destruct (session_results session) as [results|]; [|done].
  destruct (Hok results eq_refl) as [_ Hcount].
  pose proof (length_le_per_url 10 results Hcount) as Hle.
  assert (results ≠ []) as Hresults by congruence.
  assert (0 < length results)%nat by (destruct results; simpl; [done | lia]).
  case_bool_decide as Hzero; [lia |].
  split; [done |]. intros total_urls total_queries [= <- <-]. lia.
Qed.

End SummaryFacts.

Section RunWitnesses.

Example sample_run :
  main (U:=basic_unicode) (RE:=plain_search) (BS:=no_markup)
    (S:=stable_sorter) (EX:=in_set_order) [row_a; row_b] [] fetched_b_only
    None initial_session
  = Ok (Some session_after_run, Some all_empty_content).
Proof. vm_compute. reflexivity. Qed.

(** A branded term that is not a regular expression stops the run. *)
Example run_with_open_parenthesis :
  main (U:=basic_unicode) (RE:=plain_search) (BS:=no_markup)
    (S:=stable_sorter) (EX:=in_set_order) [row_a; row_b] [text "("]
    fetched_b_only None initial_session
  = Raise (ReError (text "(")).
Proof. reflexivity. Qed.

Lemma session_after_run_ok : session_ok session_after_run.
Proof.
  split; [done |]. intros results [= <-]. split.
  - intros r ->%list_elem_of_singleton. set_solver.
  - intros url. etrans; [apply length_filter |]. simpl. lia.
Qed.

Lemma initial_session_ok : session_ok initial_session.
Proof. by split. Qed.

Lemma rerun_changes_nothing_witness :
  main (U:=basic_unicode) (RE:=plain_search) (BS:=no_markup)
    (S:=stable_sorter) (EX:=in_set_order) [row_a; row_b] [] fetched_b_only
    None initial_session
  = Ok (Some session_after_run, Some all_empty_content) ∧
  ∃ df,
    process_data (U:=basic_unicode) (RE:=plain_search) [row_a; row_b] []
    = Ok df ∧
    urls_to_process df (session_processed session_after_run) = ∅ ∧
    ∀ later_cache,
      main (U:=basic_unicode) (RE:=plain_search) (BS:=no_markup)
        (S:=stable_sorter) (EX:=in_set_order) [row_a; row_b] []
        (λ _, None) later_cache session_after_run
      = Ok (Some session_after_run, later_cache).
Proof.
  split; [exact sample_run |].
  exact (rerun_changes_nothing (U:=basic_unicode) (RE:=plain_search)
           (BS:=no_markup) (S:=stable_sorter) (EX:=in_set_order)
           [row_a; row_b] [] fetched_b_only (λ _, None) None
           (Some all_empty_content) initial_session session_after_run
           sample_run).
Defined.

Lemma main_keeps_session_ok_witness :
  session_ok initial_session ∧
  main (U:=basic_unicode) (RE:=plain_search) (BS:=no_markup)
    (S:=stable_sorter) (EX:=in_set_order) [row_a; row_b] [] fetched_b_only
    None initial_session
  = Ok (Some session_after_run, Some all_empty_content) ∧
  session_ok initial_session ∧ session_ok session_after_run.
Proof.
  split; [exact initial_session_ok |]. split; [exact sample_run |].
  exact (main_keeps_session_ok (U:=basic_unicode) (RE:=plain_search)
           (BS:=no_markup) (S:=stable_sorter) (EX:=in_set_order)
           [row_a; row_b] [] fetched_b_only None (Some all_empty_content)
           initial_session session_after_run initial_session_ok
           sample_run).
Defined.

Lemma show_results_defined_witness :
  session_ok session_after_run ∧
  show_results session_after_run ≠ ZeroDivisionError ∧
  ∀ total_urls total_queries,
    show_results session_after_run = Metrics total_urls total_queries →
    (1 ≤ total_urls ∧ 1 ≤ total_queries ∧
     total_queries ≤ 10 * total_urls)%nat.
Proof.
  split; [exact session_after_run_ok |].
  exact (show_results_defined session_after_run session_after_run_ok).
Defined.

End RunWitnesses.
